(** * als_ros2: the global-localisation pose sampler (GLPoseSampler)

    A shallow embedding of [include/als_ros2/Pose.h] (the [Pose] value class and
    the [GLPoseSampler] node with its keypoint detector, feature descriptor,
    correspondence matcher, matching-rate verifier, pose generator and scan
    callback), followed by the properties of the keyframe window, the keypoint
    classification and the verification step.

    Numbers are modelled as the code has them: [int] as [Z], [float] as IEEE-754
    binary32 and [double] as binary64, both through the Standard Library's
    [spec_float] with round-to-nearest-even. *)

From Stdlib Require Import ZArith List Bool Lia FinFun.
From Stdlib Require Import Floats.SpecFloat.
Import ListNotations.

Open Scope Z_scope.

(* ================================================================== *)
(** ** IEEE-754 arithmetic of the C++ [float] and [double] types       *)
(* ================================================================== *)

Module Fp.

(** Both formats share the carrier; the operations differ by the precision
    and the exponent range they round to. *)
Definition float := spec_float.
Definition double := spec_float.

Definition fprec : Z := 24.
Definition femax : Z := 128.
Definition dprec : Z := 53.
Definition demax : Z := 1024.

Definition signedZ (s : bool) (m : positive) : Z := cond_Zopp s (Zpos m).

(** Implicit promotion [float -> double] (exact) and the narrowing
    [double -> float] of an initialisation such as [float dxx = <double>]. *)
Definition f2d (x : float) : double :=
  match x with
  | S754_finite s m e => binary_normalize dprec demax (signedZ s m) e s
  | _ => x
  end.

Definition d2f (x : double) : float :=
  match x with
  | S754_finite s m e => binary_normalize fprec femax (signedZ s m) e s
  | _ => x
  end.

(** [(double)n] and [(float)n] for an [int] n. *)
Definition i2d (n : Z) : double := binary_normalize dprec demax n 0 false.
Definition i2f (n : Z) : float := binary_normalize fprec femax n 0 false.

Definition INT_MIN : Z := - 2 ^ 31.
Definition INT_MAX : Z := 2 ^ 31 - 1.

(** [(int)x]: truncation toward zero.  A value that does not fit (or a NaN)
    is undefined behaviour in C++; the model returns what the x86-64
    conversion instruction returns, the "integer indefinite" [INT_MIN]. *)
Definition trunc (x : spec_float) : Z :=
  match x with
  | S754_zero _ => 0
  | S754_finite s m e =>
      let mag := if 0 <=? e then Zpos m * 2 ^ e else Zpos m / 2 ^ (- e) in
      let n := cond_Zopp s mag in
      if (INT_MIN <=? n) && (n <=? INT_MAX) then n else INT_MIN
  | _ => INT_MIN
  end.

Definition fadd : float -> float -> float := SFadd fprec femax.
Definition fsub : float -> float -> float := SFsub fprec femax.
Definition fmul : float -> float -> float := SFmul fprec femax.
Definition fdiv : float -> float -> float := SFdiv fprec femax.
Definition fneg : float -> float := SFopp.

Definition dadd : double -> double -> double := SFadd dprec demax.
Definition dsub : double -> double -> double := SFsub dprec demax.
Definition dmul : double -> double -> double := SFmul dprec demax.
Definition ddiv : double -> double -> double := SFdiv dprec demax.
Definition dsqrt : double -> double := SFsqrt dprec demax.
Definition dabs : double -> double := SFabs.

(** The relational operators; each is false as soon as an operand is a NaN. *)
Definition lt (x y : spec_float) : bool := SFltb x y.
Definition gt (x y : spec_float) : bool := SFltb y x.
Definition le (x y : spec_float) : bool := SFleb x y.
Definition ge (x y : spec_float) : bool := SFleb y x.

Definition is_nan (x : spec_float) : bool :=
  match x with S754_nan => true | _ => false end.

(** Literals of the source. *)
Definition zero : spec_float := S754_zero false.
Definition d_two : double := S754_finite false 4503599627370496 (-51).
Definition d_ten : double := S754_finite false 5629499534213120 (-49).
Definition d_180 : double := S754_finite false 6333186975989760 (-45).
Definition d_360 : double := S754_finite false 6333186975989760 (-44).
Definition d_0_1 : double := S754_finite false 7205759403792794 (-56).
Definition f_1_5 : float := S754_finite false 12582912 (-23).
(** [M_PI], the double nearest to pi. *)
Definition M_PI : double := S754_finite false 7074237752028440 (-51).

End Fp.

Import Fp.

(* ================================================================== *)
(** ** Containers                                                      *)
(* ================================================================== *)

(** [lo, lo+1, ..., hi-1]: the values a [for (int k = lo; k < hi; ++k)] loop
    takes, in order. *)
Definition zrange (lo hi : Z) : list Z :=
  map (fun k => lo + Z.of_nat k) (seq 0 (Z.to_nat (hi - lo))).

(** [vec[n]] of a [std::vector] for an [int] index.  Reading outside
    [0 .. size-1] is undefined in C++; the model answers [None]. *)
Definition vec_get {A : Type} (l : list A) (n : Z) : option A :=
  if n <? 0 then None else nth_error l (Z.to_nat n).

(** [cv::Mat] of [CV_32FC1]: [rows] x [cols] floats, row-major. *)
Record Mat : Type := mkMat {
  rows : Z;
  cols : Z;
  elems : list float
}.

(** [m.at<float>(v, u)].  An index outside the matrix is not checked by
    OpenCV's release build; the model reads a NaN there. *)
Definition mat_at (m : Mat) (v u : Z) : float :=
  if (0 <=? v) && (v <? rows m) && (0 <=? u) && (u <? cols m)
  then match vec_get (elems m) (v * cols m + u) with
       | Some x => x
       | None => S754_nan
       end
  else S754_nan.

(* ================================================================== *)
(** ** Messages and value classes                                      *)
(* ================================================================== *)

Record Quaternion : Type := mkQuaternion {
  q_x : double; q_y : double; q_z : double; q_w : double
}.

(** [nav_msgs::msg::OccupancyGrid]: [info.width], [info.height] are
    [uint32], [info.resolution] is a [float32], [data] is [int8[]]. *)
Record OccupancyGrid : Type := mkOccupancyGrid {
  info_width : Z;
  info_height : Z;
  info_resolution : float;
  info_origin_x : double;
  info_origin_y : double;
  info_origin_orientation : Quaternion;
  data : list Z
}.

(** [sensor_msgs::msg::LaserScan]; every real field is a [float32]. *)
Record LaserScan : Type := mkLaserScan {
  header_stamp : Z;
  angle_min : float;
  angle_increment : float;
  range_min : float;
  range_max : float;
  ranges : list float
}.

(** class [Pose] (first half of Pose.h). *)
Record Pose : Type := mkPose {
  pose_x : double;
  pose_y : double;
  pose_yaw : double
}.

(** class [Keypoint]; [kp_type] is the [char] type_:
    -2 invalid, -1 local minimum, 0 saddle, 1 local maximum. *)
Record Keypoint : Type := mkKeypoint {
  kp_u : Z;
  kp_v : Z;
  kp_x : double;
  kp_y : double;
  kp_type : Z
}.

Definition TYPE_INVALID : Z := -2.
Definition TYPE_MINIMUM : Z := -1.
Definition TYPE_SADDLE : Z := 0.
Definition TYPE_MAXIMUM : Z := 1.

(** The default constructor [Keypoint(void)]. *)
Definition Keypoint_default : Keypoint := mkKeypoint 0 0 zero zero TYPE_INVALID.

(** class [SDFOrientationFeature]. *)
Record SDFOrientationFeature : Type := mkFeature {
  dominantOrientation_ : double;
  averageSDF_ : double;
  relativeOrientationHist_ : list Z
}.

(** What the node takes from libm, tf2 and the C random source. *)
Record External : Type := mkExternal {
  ext_cos : double -> double;
  ext_sin : double -> double;
  ext_atan2 : double -> double -> double;
  ext_log : double -> double;
  (** yaw of [tf2::Matrix3x3(q).getRPY(roll, pitch, yaw)] *)
  ext_yaw_of : Quaternion -> double;
  (** [rand()]: from the current seed, the value drawn and the next seed *)
  ext_rand : Z -> Z * Z
}.

Definition RAND_MAX : Z := 2147483647.

(* ================================================================== *)
(** ** The node: members of class [GLPoseSampler]                      *)
(* ================================================================== *)

(** The members the algorithms read or write, under the names of the source,
    together with the two [static] locals of [scanCB] and the seed of the C
    random source. *)
Record GLPoseSampler : Type := mkGLPoseSampler {
  baseLink2Laser_ : Pose;
  mapWidth_ : Z;
  mapHeight_ : Z;
  mapResolution_ : double;
  mapOrigin_ : Pose;
  mapData_ : list Z;
  gotMap_ : bool;
  keyScanIntervalDist_ : double;
  keyScanIntervalYaw_ : double;
  keyScans_ : list LaserScan;
  keyScansNum_ : Z;
  odomPose_ : Pose;
  keyPoses_ : list Pose;
  gotOdom_ : bool;
  sdfKeypoints_ : list Keypoint;
  sdfOrientationFeatures_ : list SDFOrientationFeature;
  gradientSquareTH_ : double;
  keypointsMinDistFromMap_ : double;
  sdfFeatureWindowSize_ : double;
  averageSDFDeltaTH_ : double;
  addRandomSamples_ : bool;
  addOppositeSamples_ : bool;
  randomSamplesNum_ : Z;
  positionalRandomNoise_ : double;
  angularRandomNoise_ : double;
  matchingRateTH_ : double;
  scanCB_isFirst : bool;
  scanCB_prevOdomPose : Pose;
  rand_seed : Z
}.

(** [(int)x] of an unsigned 32-bit [x], and the value an [int] variable takes
    when it is initialised from unsigned 32-bit arithmetic. *)
Definition wrap_int32 (z : Z) : Z := (z + 2 ^ 31) mod 2 ^ 32 - 2 ^ 31.

(** [int n = v * map.info.width + u;] ([width] is a [uint32_t], so the
    arithmetic is unsigned and the result is converted back to [int]). *)
Definition cellIndex (map : OccupancyGrid) (v u : Z) : Z :=
  wrap_int32 (v * info_width map + u).

(* ------------------------------------------------------------------ *)
(** *** Discrete derivatives of the distance field                     *)
(* ------------------------------------------------------------------ *)

Section Derivatives.

Variable distMap : Mat.
Variables v u : Z.

Let d (dv du : Z) : float := mat_at distMap (v + dv) (u + du).

(** [float dx = -at(v-1,u-1) - at(v,u-1) - at(v+1,u-1)
                + at(v-1,u+1) + at(v,u+1) + at(v+1,u+1);] *)
Definition grad_dx : float :=
  fadd (fadd (fadd (fsub (fsub (fneg (d (-1) (-1))) (d 0 (-1))) (d 1 (-1)))
                   (d (-1) 1)) (d 0 1)) (d 1 1).

(** [float dy = -at(v-1,u-1) - at(v-1,u) - at(v-1,u+1)
                + at(v+1,u-1) + at(v+1,u) + at(v+1,u+1);] *)
Definition grad_dy : float :=
  fadd (fadd (fadd (fsub (fsub (fneg (d (-1) (-1))) (d (-1) 0)) (d (-1) 1))
                   (d 1 (-1))) (d 1 0)) (d 1 1).

(** [float dxx = at(v,u-1) - 2.0 * at(v,u) + at(v,u+1);]
    the literal [2.0] makes the expression a [double] one. *)
Definition hess_dxx : float :=
  d2f (dadd (dsub (f2d (d 0 (-1))) (dmul d_two (f2d (d 0 0)))) (f2d (d 0 1))).

(** [float dyy = at(v-1,u) - 2.0 * at(v,u) + at(v+1,u);] *)
Definition hess_dyy : float :=
  d2f (dadd (dsub (f2d (d (-1) 0)) (dmul d_two (f2d (d 0 0)))) (f2d (d 1 0))).

(** [float dxy = at(v-1,u-1) - at(v-1,u) - at(v,u-1) + 2.0 * at(v,u)
                 - at(v,u+1) - at(v+1,u) + at(v+1,u+1);]
    the first two subtractions are [float] ones, the rest is [double]. *)
Definition hess_dxy : float :=
  d2f (dadd (dsub (dsub (dadd (f2d (fsub (fsub (d (-1) (-1)) (d (-1) 0)) (d 0 (-1))))
                              (dmul d_two (f2d (d 0 0))))
                        (f2d (d 0 1)))
                  (f2d (d 1 0)))
            (f2d (d 1 1))).

(** [float det = dxx * dyy - dxy * dxy;] *)
Definition hess_det : float :=
  fsub (fmul hess_dxx hess_dyy) (fmul hess_dxy hess_dxy).

End Derivatives.

(* ------------------------------------------------------------------ *)
(** *** [detectKeypoints]                                              *)
(* ------------------------------------------------------------------ *)

Section Detect.

Variable ext : External.
Variable self : GLPoseSampler.
Variable map : OccupancyGrid.
Variable distMap : Mat.

(** [map.data[n] != 0 || distMap.at<float>(v, u) < keypointsMinDistFromMap_]:
    the cell is skipped. *)
Definition cell_skipped (u v : Z) : bool :=
  negb (match vec_get (data map) (cellIndex map v u) with
        | Some c => c =? 0
        | None => false
        end)
  || lt (f2d (mat_at distMap v u)) (keypointsMinDistFromMap_ self).

(** [dx * dx < gradientSquareTH_ && dy * dy < gradientSquareTH_] *)
Definition gradient_flat (u v : Z) : bool :=
  let dx := grad_dx distMap v u in
  let dy := grad_dy distMap v u in
  lt (f2d (fmul dx dx)) (gradientSquareTH_ self)
  && lt (f2d (fmul dy dy)) (gradientSquareTH_ self).

(** The [if / else if / else if] chain on [det] and [dxx]; [None] when no
    branch is taken. *)
Definition classify (det dxx : float) : option Z :=
  if gt (f2d det) zero && lt (f2d dxx) zero then Some TYPE_MAXIMUM
  else if gt (f2d det) zero && gt (f2d dxx) zero then Some TYPE_MINIMUM
  else if lt (f2d det) zero then Some TYPE_SADDLE
  else None.

(** The local [yaw] of [detectKeypoints], read off the grid's origin. *)
Definition map_yaw : double := ext_yaw_of ext (info_origin_orientation map).

(** World coordinates [x], [y] of the cell, as computed inside the
    flatness branch. *)
Definition cell_xy (u v : Z) : double * double :=
  let yaw := map_yaw in
  let xx := dmul (i2d u) (f2d (info_resolution map)) in
  let yy := dmul (i2d v) (f2d (info_resolution map)) in
  let dx := dsub (dmul xx (ext_cos ext yaw)) (dmul yy (ext_sin ext yaw)) in
  let dy := dadd (dmul xx (ext_sin ext yaw)) (dmul yy (ext_cos ext yaw)) in
  (dadd dx (info_origin_x map), dadd dy (info_origin_y map)).

(** The body of the inner loop as far as the classification goes: the type
    of the keypoint the cell [(u, v)] pushes, if it pushes one. *)
Definition detect_type (u v : Z) : option Z :=
  if cell_skipped u v then None
  else if gradient_flat u v
       then classify (hess_det distMap v u) (hess_dxx distMap v u)
       else None.

(** The body of the inner loop: what the cell [(u, v)] pushes onto
    [keypoints]. *)
Definition detect_cell (u v : Z) : list Keypoint :=
  match detect_type u v with
  | Some t => let '(x, y) := cell_xy u v in [mkKeypoint u v x y t]
  | None => []
  end.

(** The two loops: [u] from 1 to [(int)width - 2], inside it [v] from 1 to
    [(int)height - 2]. *)
Definition detectKeypoints : list Keypoint :=
  flat_map (fun u =>
    flat_map (fun v => detect_cell u v)
             (zrange 1 (wrap_int32 (info_height map) - 1)))
    (zrange 1 (wrap_int32 (info_width map) - 1)).

End Detect.

(** The cells the two loops of [detectKeypoints] visit. *)
Definition interior (map : OccupancyGrid) (u v : Z) : bool :=
  (1 <=? u) && (u <? wrap_int32 (info_width map) - 1)
  && (1 <=? v) && (v <? wrap_int32 (info_height map) - 1).

(** The keypoints of a list that sit on the cell [(u, v)]. *)
Definition keypoints_at (u v : Z) (kps : list Keypoint) : list Keypoint :=
  filter (fun kp => (kp_u kp =? u) && (kp_v kp =? v)) kps.

(** The squared magnitude [dx * dx + dy * dy] of the discrete gradient, in
    [float] arithmetic and promoted for the comparison with a threshold. *)
Definition gradient_square (distMap : Mat) (u v : Z) : double :=
  let dx := grad_dx distMap v u in
  let dy := grad_dy distMap v u in
  f2d (fadd (fmul dx dx) (fmul dy dy)).

(* ================================================================== *)
(** ** Loops on floating-point values                                  *)
(* ================================================================== *)

(** [while (cond a) a = body a;] with a bound on the number of iterations:
    [None] when the bound is reached with the condition still true. *)
Fixpoint while_loop {A : Type} (fuel : nat) (cond : A -> bool) (body : A -> A)
         (a : A) : option A :=
  if cond a then
    match fuel with
    | O => None
    | S fuel' => while_loop fuel' cond body (body a)
    end
  else Some a.

Definition bind {A B : Type} (m : option A) (k : A -> option B) : option B :=
  match m with
  | Some a => k a
  | None => None
  end.

Notation "x <- m ;; k" := (bind m (fun x => k))
  (at level 61, m at next level, right associativity).

(** [2.0 * M_PI] *)
Definition two_pi : double := dmul d_two M_PI.

(** [Pose::modifyYaw] and the identical pair of loops on [dyaw] in [scanCB]:
    [while (yaw < -M_PI) yaw += 2.0 * M_PI; while (yaw > M_PI) yaw -= 2.0 * M_PI;] *)
Definition modifyYaw (fuel : nat) (yaw : double) : option double :=
  y <- while_loop fuel (fun y => lt y (SFopp M_PI)) (fun y => dadd y two_pi) yaw ;;
  while_loop fuel (fun y => gt y M_PI) (fun y => dsub y two_pi) y.

(** [Pose::setYaw] and [Pose::setPose(Pose p)]. *)
Definition Pose_setYaw (fuel : nat) (p : Pose) (yaw : double) : option Pose :=
  y <- modifyYaw fuel yaw ;;
  Some (mkPose (pose_x p) (pose_y p) y).

Definition Pose_setPose (fuel : nat) (p : Pose) : option Pose :=
  y <- modifyYaw fuel (pose_yaw p) ;;
  Some (mkPose (pose_x p) (pose_y p) y).

(** The default constructor [Pose()]. *)
Definition Pose_default : Pose := mkPose zero zero zero.

(* ================================================================== *)
(** ** [calculateFeatures]                                             *)
(* ================================================================== *)

(** [hist[idx]++] on a [std::vector<int>] (the caller checks the range). *)
Fixpoint vec_incr (l : list Z) (idx : nat) : list Z :=
  match l, idx with
  | [], _ => []
  | x :: l', O => (x + 1) :: l'
  | x :: l', S i => x :: vec_incr l' i
  end.

(** The locals of one iteration of the keypoint loop. *)
Record WindowAcc : Type := mkWindowAcc {
  distSum : float;
  cellNum : Z;
  orientHist : list Z;
  orientations : list double
}.

Definition WindowAcc_init : WindowAcc :=
  mkWindowAcc zero 0 (repeat 0 36) [].

Section Features.

Variable ext : External.
Variable fuel : nat.
Variable self : GLPoseSampler.
Variable distMap : Mat.

(** [int r = (int)(sdfFeatureWindowSize_ / mapResolution_);] *)
Definition window_radius : Z :=
  trunc (ddiv (sdfFeatureWindowSize_ self) (mapResolution_ self)).

(** The cells the two window loops visit, in order:
    [u] from [uo - r] to [uo + r], inside it [v] from [vo - r] to [vo + r]. *)
Definition window_cells (uo vo r : Z) : list (Z * Z) :=
  flat_map (fun u => map (fun v => (u, v)) (zrange (vo - r) (vo + r + 1)))
           (zrange (uo - r) (uo + r + 1)).

(** Negation of the [continue] test
    [u < 1 || distMap.cols - 1 < u || v < 1 || distMap.rows - 1 < v]. *)
Definition window_cell_valid (u v : Z) : bool :=
  negb ((u <? 1) || (cols distMap - 1 <? u) || (v <? 1) || (rows distMap - 1 <? v)).

(** [double t = atan2((double)dy, (double)dx) * 180.0 / M_PI;
    if (t < 0.0) t += 360.0;] *)
Definition cell_orientation (u v : Z) : double :=
  let dx := grad_dx distMap v u in
  let dy := grad_dy distMap v u in
  let t := ddiv (dmul (ext_atan2 ext (f2d dy) (f2d dx)) d_180) M_PI in
  if lt t zero then dadd t d_360 else t.

(** The body of the window loops. *)
Definition window_step (acc : WindowAcc) (c : Z * Z) : WindowAcc :=
  let '(u, v) := c in
  if window_cell_valid u v then
    let t := cell_orientation u v in
    let orientIdx := trunc (ddiv t d_ten) in
    let inRange := (0 <=? orientIdx) && (orientIdx <? 36) in
    mkWindowAcc
      (fadd (distSum acc) (mat_at distMap v u))
      (cellNum acc + 1)
      (if inRange then vec_incr (orientHist acc) (Z.to_nat orientIdx)
       else orientHist acc)
      (if inRange then orientations acc ++ [t] else orientations acc)
  else acc.

(** The mode of the 36-bin histogram: [maxVal = orientHist[0]],
    [domOrient = 0.0], then bins 1 .. 35 with a strict comparison. *)
Definition dominant_orientation (hist : list Z) : double :=
  snd (fold_left
         (fun (st : Z * double) (j : Z) =>
            let h := nth (Z.to_nat j) hist 0 in
            if fst st <? h then (h, dmul (i2d j) d_ten) else st)
         (zrange 1 (Z.of_nat (length hist)))
         (nth 0 hist 0, zero)).

(** [dt = domOrient - orientations[j]] wrapped by
    [while (dt > 180.0) dt -= 360.0; while (dt < -180.0) dt += 360.0;] *)
Definition wrap180 (dt : double) : option double :=
  y <- while_loop fuel (fun y => gt y d_180) (fun y => dsub y d_360) dt ;;
  while_loop fuel (fun y => lt y (SFopp d_180)) (fun y => dadd y d_360) y.

(** The loop that fills [relOrientHist] (17 bins). *)
Fixpoint relative_hist (domOrient : double) (ts : list double) (hist : list Z)
  : option (list Z) :=
  match ts with
  | [] => Some hist
  | t :: ts' =>
      dt <- wrap180 (dsub domOrient t) ;;
      let relOrientIdx := trunc (ddiv (dabs dt) d_ten) in
      relative_hist domOrient ts'
        (if (0 <=? relOrientIdx) && (relOrientIdx <? 17)
         then vec_incr hist (Z.to_nat relOrientIdx) else hist)
  end.

(** One iteration of the keypoint loop: the feature of [keypoints[i]]. *)
Definition feature_of (kp : Keypoint) : option SDFOrientationFeature :=
  let r := window_radius in
  let acc := fold_left window_step (window_cells (kp_u kp) (kp_v kp) r)
                       WindowAcc_init in
  let distAve := fdiv (distSum acc) (i2f (cellNum acc)) in
  let domOrient := dominant_orientation (orientHist acc) in
  relOrientHist <- relative_hist domOrient (orientations acc) (repeat 0 17) ;;
  Some (mkFeature (ddiv (dmul domOrient M_PI) d_180) (f2d distAve) relOrientHist).

(** The number of cells of the keypoint's window that pass the border test
    (the final value of [cellNum]). *)
Definition valid_cell_count (kp : Keypoint) : Z :=
  cellNum (fold_left window_step
                     (window_cells (kp_u kp) (kp_v kp) window_radius)
                     WindowAcc_init).

Fixpoint calculateFeatures (keypoints : list Keypoint)
  : option (list SDFOrientationFeature) :=
  match keypoints with
  | [] => Some []
  | kp :: rest =>
      f <- feature_of kp ;;
      fs <- calculateFeatures rest ;;
      Some (f :: fs)
  end.

End Features.

(* ================================================================== *)
(** ** [findCorrespondingFeatures]                                     *)
(* ================================================================== *)

(** What a default-constructed element reads as: the source indexes its
    vectors without a check, and the vectors are index-aligned by
    construction. *)
Definition Feature_default : SDFOrientationFeature := mkFeature zero zero [].

(** [sum += abs(localRelOrientHist[k] - global.getRelativeOrientationHist(k))]
    for [k] from 0 to 16. *)
Definition hist_l1 (h1 h2 : list Z) : Z :=
  fold_left (fun sum k => sum + Z.abs (nth (Z.to_nat k) h1 0 - nth (Z.to_nat k) h2 0))
            (zrange 0 17) 0.

(** The locals of the loop over the global keypoints.  [idx1] and [idx2] are
    not initialised in the source; they are read only after being written. *)
Record MatchAcc : Type := mkMatchAcc {
  isFirst : bool;
  isSecond : bool;
  idx1 : Z;
  idx2 : Z;
  min1 : Z;
  min2 : Z
}.

Definition MatchAcc_init : MatchAcc := mkMatchAcc true true 0 0 (-1) (-1).

(** The [if (isFirst) / else if (isSecond) / else if (min1 > sum)] update
    for a considered candidate [j] with score [sum]. *)
Definition match_update (acc : MatchAcc) (j sum : Z) : MatchAcc :=
  if isFirst acc then
    mkMatchAcc false (isSecond acc) j (idx2 acc) sum (min2 acc)
  else if isSecond acc then
    if min1 acc <? sum then
      mkMatchAcc false false (idx1 acc) j (min1 acc) sum
    else
      mkMatchAcc false false j (idx1 acc) sum (min1 acc)
  else if sum <? min1 acc then
    mkMatchAcc false false j (idx1 acc) sum (min1 acc)
  else acc.

(** The accept test after the loop. *)
Definition match_result (acc : MatchAcc) : Z :=
  if (0 <=? min1 acc) && (0 <=? min2 acc)
     && lt (fmul (i2f (min1 acc)) f_1_5) (i2f (min2 acc))
  then idx1 acc
  else if (0 <=? min1 acc) && (min2 acc <? 0) then idx1 acc
  else -1.

Section Matching.

Variable self : GLPoseSampler.

(** Negation of the two [continue] tests: the global feature [j] is
    considered for a local feature of the given type and average. *)
Definition considered (localKeypointType : Z) (localAverageSDF : double)
           (j : Z) : bool :=
  let g := nth (Z.to_nat j) (sdfKeypoints_ self) Keypoint_default in
  let gf := nth (Z.to_nat j) (sdfOrientationFeatures_ self) Feature_default in
  (localKeypointType =? kp_type g)
  && negb (gt (dabs (dsub localAverageSDF (averageSDF_ gf)))
              (averageSDFDeltaTH_ self)).

(** The score of the global feature [j] against a local histogram. *)
Definition score (localRelOrientHist : list Z) (j : Z) : Z :=
  hist_l1 localRelOrientHist
          (relativeOrientationHist_
             (nth (Z.to_nat j) (sdfOrientationFeatures_ self) Feature_default)).

(** The body of the loop over [j]. *)
Definition match_step (localKeypointType : Z) (localAverageSDF : double)
           (localRelOrientHist : list Z) (acc : MatchAcc) (j : Z) : MatchAcc :=
  if considered localKeypointType localAverageSDF j
  then match_update acc j (score localRelOrientHist j)
  else acc.

(** The final locals of the loop over [j] for one local feature. *)
Definition match_scan (kp : Keypoint) (f : SDFOrientationFeature) : MatchAcc :=
  fold_left (match_step (kp_type kp) (averageSDF_ f) (relativeOrientationHist_ f))
            (zrange 0 (Z.of_nat (length (sdfKeypoints_ self))))
            MatchAcc_init.

(** [correspondingIndices[i]] *)
Definition find_one (kp : Keypoint) (f : SDFOrientationFeature) : Z :=
  match_result (match_scan kp f).

Definition findCorrespondingFeatures (localSDFKeypoints : list Keypoint)
           (localFeatures : list SDFOrientationFeature) : list Z :=
  map (fun i =>
         find_one (nth (Z.to_nat i) localSDFKeypoints Keypoint_default)
                  (nth (Z.to_nat i) localFeatures Feature_default))
      (zrange 0 (Z.of_nat (length localSDFKeypoints))).

(** The candidates the loop considers, in index order, with their scores. *)
Definition considered_scores (kp : Keypoint) (f : SDFOrientationFeature)
  : list (Z * Z) :=
  map (fun j => (j, score (relativeOrientationHist_ f) j))
      (filter (considered (kp_type kp) (averageSDF_ f))
              (zrange 0 (Z.of_nat (length (sdfKeypoints_ self))))).

End Matching.

(** The smallest and the second smallest element of a list of scores (the
    second smallest counts a repeated minimum twice). *)
Fixpoint insert_sorted (x : Z) (l : list Z) : list Z :=
  match l with
  | [] => [x]
  | y :: l' => if x <=? y then x :: l else y :: insert_sorted x l'
  end.

Definition sort_scores (l : list Z) : list Z := fold_right insert_sorted [] l.

Definition second_smallest (l : list Z) : option Z := nth_error (sort_scores l) 1.

(* ================================================================== *)
(** ** [xy2uv] and [computeMatchingRate]                               *)
(* ================================================================== *)

(** What an empty window reads as in [keyScans_[size - 1]]. *)
Definition LaserScan_default : LaserScan := mkLaserScan 0 zero zero zero zero [].

Section Verify.

Variable ext : External.
Variable self : GLPoseSampler.

(** [xy2uv(x, y, &u, &v)] *)
Definition xy2uv (x y : double) : Z * Z :=
  let dx := dsub x (pose_x (mapOrigin_ self)) in
  let dy := dsub y (pose_y (mapOrigin_ self)) in
  let yaw := SFopp (pose_yaw (mapOrigin_ self)) in
  let xx := dsub (dmul dx (ext_cos ext yaw)) (dmul dy (ext_sin ext yaw)) in
  let yy := dadd (dmul dx (ext_sin ext yaw)) (dmul dy (ext_cos ext yaw)) in
  (trunc (ddiv xx (mapResolution_ self)), trunc (ddiv yy (mapResolution_ self))).

(** [mapData_[n] == 100] *)
Definition occupied_at (n : Z) : bool :=
  match vec_get (mapData_ self) n with
  | Some c => c =? 100
  | None => false
  end.

(** The beam passes the two [continue] tests of the loop. *)
Definition beam_valid (scan : LaserScan) (r : double) : bool :=
  negb (lt r (f2d (range_min scan)) || lt (f2d (range_max scan)) r)
  && negb (lt r (keypointsMinDistFromMap_ self)).

(** The end point of the beam falls on an interior cell that is occupied
    or has an occupied 4-neighbour. *)
Definition beam_matches (sensorX sensorY sensorYaw : double) (scan : LaserScan)
           (i : Z) (r : double) : bool :=
  let t := dadd (dadd (dmul (i2d i) (f2d (angle_increment scan)))
                      (f2d (angle_min scan))) sensorYaw in
  let x := dadd (dmul r (ext_cos ext t)) sensorX in
  let y := dadd (dmul r (ext_sin ext t)) sensorY in
  let '(u, v) := xy2uv x y in
  if (1 <=? u) && (u <? mapWidth_ self - 1) && (1 <=? v) && (v <? mapHeight_ self - 1)
  then
    let n0 := v * mapWidth_ self + u in
    let n1 := n0 - mapWidth_ self in
    let n2 := n0 - 1 in
    let n3 := n0 + 1 in
    let n4 := n0 + mapWidth_ self in
    occupied_at n0 || occupied_at n1 || occupied_at n2 || occupied_at n3
    || occupied_at n4
  else false.

(** The pair [(validScanNum, matchingNum)] after the loop over the beams. *)
Definition count_beams (sensorX sensorY sensorYaw : double) (scan : LaserScan)
  : Z * Z :=
  fold_left
    (fun (cnt : Z * Z) (ir : Z * float) =>
       let '(i, rf) := ir in
       let r := f2d rf in
       if beam_valid scan r then
         (fst cnt + 1,
          if beam_matches sensorX sensorY sensorYaw scan i r
          then snd cnt + 1 else snd cnt)
       else cnt)
    (combine (zrange 0 (Z.of_nat (length (ranges scan)))) (ranges scan))
    (0, 0).

(** The rate of a given scan cast from [pose]. *)
Definition matching_rate_of (scan : LaserScan) (pose : Pose) : double :=
  let yaw := pose_yaw (baseLink2Laser_ self) in
  let c := ext_cos ext yaw in
  let s := ext_sin ext yaw in
  let sensorX := dadd (dsub (dmul (pose_x (baseLink2Laser_ self)) c)
                            (dmul (pose_y (baseLink2Laser_ self)) s))
                      (pose_x pose) in
  let sensorY := dadd (dadd (dmul (pose_x (baseLink2Laser_ self)) s)
                            (dmul (pose_y (baseLink2Laser_ self)) c))
                      (pose_y pose) in
  let sensorYaw := dadd yaw (pose_yaw pose) in
  let '(validScanNum, matchingNum) := count_beams sensorX sensorY sensorYaw scan in
  ddiv (i2d matchingNum) (i2d validScanNum).

(** [sensor_msgs::LaserScan scan = keyScans_[(int)keyScans_.size() - 1];] *)
Definition verification_scan : LaserScan :=
  match vec_get (keyScans_ self) (Z.of_nat (length (keyScans_ self)) - 1) with
  | Some scan => scan
  | None => LaserScan_default
  end.

Definition computeMatchingRate (pose : Pose) : double :=
  matching_rate_of verification_scan pose.

End Verify.

(* ================================================================== *)
(** ** [nrand] and [generatePoses]                                     *)
(* ================================================================== *)

(** The entries of the published [geometry_msgs::PoseArray]; the orientation
    [tf::createQuaternionMsgFromYaw(yaw)] is kept as its yaw. *)
Record PoseMsg : Type := mkPoseMsg {
  position_x : double;
  position_y : double;
  orientation_yaw : double
}.

Section Generate.

Variable ext : External.
Variable self : GLPoseSampler.

(** [n * sqrt(-2.0 * log((double)rand() / RAND_MAX))
       * cos(2.0 * M_PI * rand() / RAND_MAX)], the two draws taken left to
    right, threaded through the seed. *)
Definition nrand (n : double) (seed : Z) : double * Z :=
  let '(r1, seed1) := ext_rand ext seed in
  let '(r2, seed2) := ext_rand ext seed1 in
  let a := dsqrt (dmul (SFopp d_two) (ext_log ext (ddiv (i2d r1) (i2d RAND_MAX)))) in
  let b := ext_cos ext (ddiv (dmul (dmul d_two M_PI) (i2d r2)) (i2d RAND_MAX)) in
  (dmul (dmul n a) b, seed2).

(** The sensor pose the correspondence [(i, idx)] proposes. *)
Definition candidate_sensor_pose (currentOdomPose : Pose) (kp : Keypoint)
           (f : SDFOrientationFeature) (idx : Z) : Pose :=
  let dx := dsub (kp_x kp) (pose_x currentOdomPose) in
  let dy := dsub (kp_y kp) (pose_y currentOdomPose) in
  let localDomOrient := dominantOrientation_ f in
  let dOrient := dsub (pose_yaw currentOdomPose) localDomOrient in
  let targetKeypoint := nth (Z.to_nat idx) (sdfKeypoints_ self) Keypoint_default in
  let targetDomOrient :=
    dominantOrientation_
      (nth (Z.to_nat idx) (sdfOrientationFeatures_ self) Feature_default) in
  let dDomOrient := dsub localDomOrient targetDomOrient in
  let c := ext_cos ext dDomOrient in
  let s := ext_sin ext dDomOrient in
  mkPose (dadd (dsub (dmul dx c) (dmul dy s)) (kp_x targetKeypoint))
         (dadd (dadd (dmul dx s) (dmul dy c)) (kp_y targetKeypoint))
         (dadd targetDomOrient dOrient).

(** [u < 0 || mapWidth_ <= u || v < 0 || mapHeight_ <= v] *)
Definition out_of_bounds (u v : Z) : bool :=
  (u <? 0) || (mapWidth_ self <=? u) || (v <? 0) || (mapHeight_ self <=? v).

(** [mapData_[v * mapWidth_ + u] != 0] *)
Definition not_free (u v : Z) : bool :=
  negb (match vec_get (mapData_ self) (v * mapWidth_ self + u) with
        | Some c => c =? 0
        | None => false
        end).

(** The two [continue] tests that follow [xy2uv(sensorX, sensorY, &u, &v)]. *)
Definition cell_rejected (u v : Z) : bool :=
  out_of_bounds u v || not_free u v.

(** The body pose: the sensor pose with the base-to-laser offset undone. *)
Definition base_pose (sensor : Pose) : Pose :=
  let byaw := pose_yaw (baseLink2Laser_ self) in
  let bc := ext_cos ext byaw in
  let bs := ext_sin ext byaw in
  mkPose (dadd (dsub (pose_x sensor) (dmul (pose_x (baseLink2Laser_ self)) bc))
               (dmul (pose_y (baseLink2Laser_ self)) bs))
         (dsub (dsub (pose_y sensor) (dmul (pose_x (baseLink2Laser_ self)) bs))
               (dmul (pose_y (baseLink2Laser_ self)) bc))
         (dsub (pose_yaw sensor) byaw).

(** [matchingRateTH_ > 0.0 && computeMatchingRate(p) < matchingRateTH_]:
    the pose is dropped by the verification. *)
Definition verification_rejects (p : Pose) : bool :=
  gt (matchingRateTH_ self) zero
  && lt (computeMatchingRate ext self p) (matchingRateTH_ self).

Definition pose_msg (p : Pose) : PoseMsg :=
  mkPoseMsg (pose_x p) (pose_y p) (pose_yaw p).

(** The loop over [j] of the random-sampling branch. *)
Fixpoint random_samples (base : Pose) (js : list Z) (seed : Z)
  : list PoseMsg * Z :=
  match js with
  | [] => ([], seed)
  | j :: js' =>
      let '(nx, seed1) := nrand (positionalRandomNoise_ self) seed in
      let x := dadd (pose_x base) nx in
      let '(ny, seed2) := nrand (positionalRandomNoise_ self) seed1 in
      let y := dadd (pose_y base) ny in
      let '(na, seed3) := nrand (angularRandomNoise_ self) seed2 in
      let yaw :=
        if addOppositeSamples_ self && (Z.rem j 2 =? 1)
        then dadd (dadd (pose_yaw base) M_PI) na
        else dadd (pose_yaw base) na in
      let p := mkPose x y yaw in
      let '(rest, seed') := random_samples base js' seed3 in
      (if verification_rejects p then rest else pose_msg p :: rest, seed')
  end.

(** What a candidate that passed the cell test contributes. *)
Definition sample_and_verify (base : Pose) (seed : Z) : list PoseMsg * Z :=
  if negb (addRandomSamples_ self) then
    (if verification_rejects base then [] else [pose_msg base], seed)
  else random_samples base (zrange 0 (randomSamplesNum_ self)) seed.

(** One iteration of the loop over [correspondingIndices]. *)
Definition generate_one (currentOdomPose : Pose) (kp : Keypoint)
           (f : SDFOrientationFeature) (idx : Z) (seed : Z) : list PoseMsg * Z :=
  if idx <? 0 then ([], seed)
  else
    let sensor := candidate_sensor_pose currentOdomPose kp f idx in
    let '(u, v) := xy2uv ext self (pose_x sensor) (pose_y sensor) in
    if cell_rejected u v then ([], seed)
    else sample_and_verify (base_pose sensor) seed.

Fixpoint generate_loop (currentOdomPose : Pose) (localSDFKeypoints : list Keypoint)
         (localSDFOrientationFeatures : list SDFOrientationFeature)
         (indexed : list (Z * Z)) (seed : Z) : list PoseMsg * Z :=
  match indexed with
  | [] => ([], seed)
  | (i, idx) :: rest =>
      let '(ps, seed1) :=
        generate_one currentOdomPose
          (nth (Z.to_nat i) localSDFKeypoints Keypoint_default)
          (nth (Z.to_nat i) localSDFOrientationFeatures Feature_default)
          idx seed in
      let '(qs, seed2) :=
        generate_loop currentOdomPose localSDFKeypoints
                      localSDFOrientationFeatures rest seed1 in
      (ps ++ qs, seed2)
  end.

Definition generatePoses (currentOdomPose : Pose) (localSDFKeypoints : list Keypoint)
           (localSDFOrientationFeatures : list SDFOrientationFeature)
           (correspondingIndices : list Z) : list PoseMsg * Z :=
  generate_loop currentOdomPose localSDFKeypoints localSDFOrientationFeatures
    (combine (zrange 0 (Z.of_nat (length correspondingIndices))) correspondingIndices)
    (rand_seed self).

End Generate.

(* ================================================================== *)
(** ** Assignments to the members                                      *)
(* ================================================================== *)

Definition set_mapOrigin (s : GLPoseSampler) (o : Pose) : GLPoseSampler :=
  mkGLPoseSampler (baseLink2Laser_ s) (mapWidth_ s) (mapHeight_ s) (mapResolution_ s)
    o (mapData_ s) (gotMap_ s) (keyScanIntervalDist_ s) (keyScanIntervalYaw_ s)
    (keyScans_ s) (keyScansNum_ s) (odomPose_ s) (keyPoses_ s) (gotOdom_ s)
    (sdfKeypoints_ s) (sdfOrientationFeatures_ s) (gradientSquareTH_ s)
    (keypointsMinDistFromMap_ s) (sdfFeatureWindowSize_ s) (averageSDFDeltaTH_ s)
    (addRandomSamples_ s) (addOppositeSamples_ s) (randomSamplesNum_ s)
    (positionalRandomNoise_ s) (angularRandomNoise_ s) (matchingRateTH_ s)
    (scanCB_isFirst s) (scanCB_prevOdomPose s) (rand_seed s).

(** [mapWidth_], [mapHeight_], [mapResolution_], [mapData_] of [setMapInfo]. *)
Definition set_mapInfo (s : GLPoseSampler) (w h : Z) (res : double) (d : list Z)
  : GLPoseSampler :=
  mkGLPoseSampler (baseLink2Laser_ s) w h res
    (mapOrigin_ s) d (gotMap_ s) (keyScanIntervalDist_ s) (keyScanIntervalYaw_ s)
    (keyScans_ s) (keyScansNum_ s) (odomPose_ s) (keyPoses_ s) (gotOdom_ s)
    (sdfKeypoints_ s) (sdfOrientationFeatures_ s) (gradientSquareTH_ s)
    (keypointsMinDistFromMap_ s) (sdfFeatureWindowSize_ s) (averageSDFDeltaTH_ s)
    (addRandomSamples_ s) (addOppositeSamples_ s) (randomSamplesNum_ s)
    (positionalRandomNoise_ s) (angularRandomNoise_ s) (matchingRateTH_ s)
    (scanCB_isFirst s) (scanCB_prevOdomPose s) (rand_seed s).

(** [sdfKeypoints_], [sdfOrientationFeatures_] and [gotMap_ = true] of [mapCB]. *)
Definition set_globalFeatures (s : GLPoseSampler) (kps : list Keypoint)
           (fs : list SDFOrientationFeature) : GLPoseSampler :=
  mkGLPoseSampler (baseLink2Laser_ s) (mapWidth_ s) (mapHeight_ s) (mapResolution_ s)
    (mapOrigin_ s) (mapData_ s) true (keyScanIntervalDist_ s) (keyScanIntervalYaw_ s)
    (keyScans_ s) (keyScansNum_ s) (odomPose_ s) (keyPoses_ s) (gotOdom_ s)
    kps fs (gradientSquareTH_ s)
    (keypointsMinDistFromMap_ s) (sdfFeatureWindowSize_ s) (averageSDFDeltaTH_ s)
    (addRandomSamples_ s) (addOppositeSamples_ s) (randomSamplesNum_ s)
    (positionalRandomNoise_ s) (angularRandomNoise_ s) (matchingRateTH_ s)
    (scanCB_isFirst s) (scanCB_prevOdomPose s) (rand_seed s).

(** [odomPose_] and [gotOdom_ = true] of [odomCB]. *)
Definition set_odom (s : GLPoseSampler) (p : Pose) : GLPoseSampler :=
  mkGLPoseSampler (baseLink2Laser_ s) (mapWidth_ s) (mapHeight_ s) (mapResolution_ s)
    (mapOrigin_ s) (mapData_ s) (gotMap_ s) (keyScanIntervalDist_ s)
    (keyScanIntervalYaw_ s)
    (keyScans_ s) (keyScansNum_ s) p (keyPoses_ s) true
    (sdfKeypoints_ s) (sdfOrientationFeatures_ s) (gradientSquareTH_ s)
    (keypointsMinDistFromMap_ s) (sdfFeatureWindowSize_ s) (averageSDFDeltaTH_ s)
    (addRandomSamples_ s) (addOppositeSamples_ s) (randomSamplesNum_ s)
    (positionalRandomNoise_ s) (angularRandomNoise_ s) (matchingRateTH_ s)
    (scanCB_isFirst s) (scanCB_prevOdomPose s) (rand_seed s).

(** [keyScans_], [keyPoses_], the static [prevOdomPose] and [isFirst = false]:
    what recording a keyframe writes. *)
Definition set_keyframes (s : GLPoseSampler) (scans : list LaserScan)
           (poses : list Pose) (prev : Pose) : GLPoseSampler :=
  mkGLPoseSampler (baseLink2Laser_ s) (mapWidth_ s) (mapHeight_ s) (mapResolution_ s)
    (mapOrigin_ s) (mapData_ s) (gotMap_ s) (keyScanIntervalDist_ s)
    (keyScanIntervalYaw_ s)
    scans (keyScansNum_ s) (odomPose_ s) poses (gotOdom_ s)
    (sdfKeypoints_ s) (sdfOrientationFeatures_ s) (gradientSquareTH_ s)
    (keypointsMinDistFromMap_ s) (sdfFeatureWindowSize_ s) (averageSDFDeltaTH_ s)
    (addRandomSamples_ s) (addOppositeSamples_ s) (randomSamplesNum_ s)
    (positionalRandomNoise_ s) (angularRandomNoise_ s) (matchingRateTH_ s)
    false prev (rand_seed s).

Definition set_rand_seed (s : GLPoseSampler) (seed : Z) : GLPoseSampler :=
  mkGLPoseSampler (baseLink2Laser_ s) (mapWidth_ s) (mapHeight_ s) (mapResolution_ s)
    (mapOrigin_ s) (mapData_ s) (gotMap_ s) (keyScanIntervalDist_ s)
    (keyScanIntervalYaw_ s)
    (keyScans_ s) (keyScansNum_ s) (odomPose_ s) (keyPoses_ s) (gotOdom_ s)
    (sdfKeypoints_ s) (sdfOrientationFeatures_ s) (gradientSquareTH_ s)
    (keypointsMinDistFromMap_ s) (sdfFeatureWindowSize_ s) (averageSDFDeltaTH_ s)
    (addRandomSamples_ s) (addOppositeSamples_ s) (randomSamplesNum_ s)
    (positionalRandomNoise_ s) (angularRandomNoise_ s) (matchingRateTH_ s)
    (scanCB_isFirst s) (scanCB_prevOdomPose s) seed.

(* ================================================================== *)
(** ** The callbacks                                                   *)
(* ================================================================== *)

(** [nav_msgs::Odometry], as far as [odomCB] reads it. *)
Record Odometry : Type := mkOdometry {
  odom_position_x : double;
  odom_position_y : double;
  odom_orientation : Quaternion
}.

(** What a callback hands to its publishers, in order.  A keypoint marker is
    kept as the keypoint list [makeSDFKeypointsMarker] formats. *)
Inductive Publication : Type :=
| PubPoses (stamp : Z) (poses : list PoseMsg)
| PubLocalMap (stamp : Z) (localMap : OccupancyGrid)
| PubSdfKeypoints (stamp : Z) (marker : list Keypoint)
| PubLocalSdfKeypoints (stamp : Z) (marker : list Keypoint).

(** The two steps of the pipeline that are not embedded: the raycasting of
    [buildLocalMap] (a function of the members), and the distance field
    ([buildDistanceFieldMap], i.e. OpenCV's [distanceTransform] scaled by the
    resolution, followed by [cv::GaussianBlur]). *)
Record Pipeline : Type := mkPipeline {
  buildLocalMap : GLPoseSampler -> OccupancyGrid;
  blurredDistanceField : OccupancyGrid -> Mat
}.

(** [v.resize(n)] under the guard [v.size() >= n] of the source still reads
    as the general operation. *)
Definition vec_resize {A : Type} (n : nat) (l : list A) (d : A) : list A :=
  firstn n l ++ repeat d (n - length l).

Section Callbacks.

Variable ext : External.
Variable pipe : Pipeline.
Variable fuel : nat.

(** [mapOrigin_.setYaw(yaw)] at the head of [detectKeypoints]. *)
Definition detectKeypoints_setYaw (self : GLPoseSampler) (map : OccupancyGrid)
  : option GLPoseSampler :=
  o <- Pose_setYaw fuel (mapOrigin_ self) (map_yaw ext map) ;;
  Some (set_mapOrigin self o).

(** [setMapInfo] *)
Definition setMapInfo (self : GLPoseSampler) (map : OccupancyGrid)
  : option GLPoseSampler :=
  let s1 := set_mapInfo self (wrap_int32 (info_width map))
                        (wrap_int32 (info_height map))
                        (f2d (info_resolution map)) (data map) in
  let o := mkPose (info_origin_x map) (info_origin_y map)
                  (pose_yaw (mapOrigin_ self)) in
  o' <- Pose_setYaw fuel o (map_yaw ext map) ;;
  Some (set_mapOrigin s1 o').

Definition mapCB (self : GLPoseSampler) (msg : OccupancyGrid)
  : option (GLPoseSampler * list Publication) :=
  s1 <- setMapInfo self msg ;;
  let distMap := blurredDistanceField pipe msg in
  s2 <- detectKeypoints_setYaw s1 msg ;;
  let kps := detectKeypoints ext s2 msg distMap in
  fs <- calculateFeatures ext fuel s2 distMap kps ;;
  Some (set_globalFeatures s2 kps fs, [PubSdfKeypoints 0 kps]).

Definition odomCB (self : GLPoseSampler) (msg : Odometry)
  : option (GLPoseSampler * list Publication) :=
  p <- Pose_setPose fuel (mkPose (odom_position_x msg) (odom_position_y msg)
                                 (ext_yaw_of ext (odom_orientation msg))) ;;
  Some (set_odom self p, []).

(** [validScanRate] of [scanCB]: the beams with
    [range_min <= r && r <= range_max] over [ranges.size()]. *)
Definition validScanNum (msg : LaserScan) : Z :=
  Z.of_nat (length (filter (fun r => le (range_min msg) r && le r (range_max msg))
                           (ranges msg))).

Definition validScanRate (msg : LaserScan) : double :=
  ddiv (i2d (validScanNum msg)) (i2d (Z.of_nat (length (ranges msg)))).

(** [dl = sqrt(dx * dx + dy * dy)] between [odomPose_] and the static
    [prevOdomPose]. *)
Definition keyframe_distance (self : GLPoseSampler) : double :=
  let prev := scanCB_prevOdomPose self in
  let dx := dsub (pose_x (odomPose_ self)) (pose_x prev) in
  let dy := dsub (pose_y (odomPose_ self)) (pose_y prev) in
  dsqrt (dadd (dmul dx dx) (dmul dy dy)).

(** [dyaw = odomPose_.getYaw() - prevOdomPose.getYaw()] wrapped into
    [-pi, pi] by the two loops; [None] when the wrapping does not finish
    within the bound. *)
Definition keyframe_yaw_difference (self : GLPoseSampler) : option double :=
  modifyYaw fuel (dsub (pose_yaw (odomPose_ self))
                       (pose_yaw (scanCB_prevOdomPose self))).

(** The displacement test
    [dl > keyScanIntervalDist_ || fabs(dyaw) > keyScanIntervalYaw_]. *)
Definition displacement_exceeded (self : GLPoseSampler) : option bool :=
  let dl := keyframe_distance self in
  dyaw <- keyframe_yaw_difference self ;;
  Some (gt dl (keyScanIntervalDist_ self)
        || gt (dabs dyaw) (keyScanIntervalYaw_ self)).

(** The insertion at the front followed by the guarded [resize]. *)
Definition insert_keyframe (self : GLPoseSampler) (msg : LaserScan)
  : list LaserScan * list Pose :=
  let scans := msg :: keyScans_ self in
  let poses := odomPose_ self :: keyPoses_ self in
  if keyScansNum_ self <=? Z.of_nat (length scans) then
    (vec_resize (Z.to_nat (keyScansNum_ self)) scans LaserScan_default,
     vec_resize (Z.to_nat (keyScansNum_ self)) poses Pose_default)
  else (scans, poses).

(** The matching cycle run when the window has just been updated and holds
    [keyScansNum_] scans: the new members and the four publications. *)
Definition matching_cycle (self : GLPoseSampler) (msg : LaserScan)
  : option (GLPoseSampler * list Publication) :=
  let localMap := buildLocalMap pipe self in
  let localDistMap := blurredDistanceField pipe localMap in
  s1 <- detectKeypoints_setYaw self localMap ;;
  let localSDFKeypoints := detectKeypoints ext s1 localMap localDistMap in
  localSDFOrientationFeatures <-
    calculateFeatures ext fuel s1 localDistMap localSDFKeypoints ;;
  let correspondingIndices :=
    findCorrespondingFeatures s1 localSDFKeypoints localSDFOrientationFeatures in
  let '(poses, seed) :=
    generatePoses ext s1 (scanCB_prevOdomPose s1) localSDFKeypoints
                  localSDFOrientationFeatures correspondingIndices in
  let stamp := header_stamp msg in
  Some (set_rand_seed s1 seed,
        [PubPoses stamp poses; PubLocalMap stamp localMap;
         PubSdfKeypoints stamp (sdfKeypoints_ s1);
         PubLocalSdfKeypoints stamp localSDFKeypoints]).

Definition scanCB (self : GLPoseSampler) (msg : LaserScan)
  : option (GLPoseSampler * list Publication) :=
  if lt (validScanRate msg) d_0_1 then Some (self, [])
  else if scanCB_isFirst self && gotOdom_ self then
    prev <- Pose_setPose fuel (odomPose_ self) ;;
    Some (set_keyframes self (keyScans_ self ++ [msg])
                        (keyPoses_ self ++ [odomPose_ self]) prev, [])
  else
    exceeded <- displacement_exceeded self ;;
    if exceeded then
      let '(scans, poses) := insert_keyframe self msg in
      prev <- Pose_setPose fuel (odomPose_ self) ;;
      let s1 := mkGLPoseSampler
        (baseLink2Laser_ self) (mapWidth_ self) (mapHeight_ self)
        (mapResolution_ self) (mapOrigin_ self) (mapData_ self) (gotMap_ self)
        (keyScanIntervalDist_ self) (keyScanIntervalYaw_ self)
        scans (keyScansNum_ self) (odomPose_ self) poses (gotOdom_ self)
        (sdfKeypoints_ self) (sdfOrientationFeatures_ self)
        (gradientSquareTH_ self) (keypointsMinDistFromMap_ self)
        (sdfFeatureWindowSize_ self) (averageSDFDeltaTH_ self)
        (addRandomSamples_ self) (addOppositeSamples_ self)
        (randomSamplesNum_ self) (positionalRandomNoise_ self)
        (angularRandomNoise_ self) (matchingRateTH_ self)
        (scanCB_isFirst self) prev (rand_seed self) in
      if Z.of_nat (length scans) =? keyScansNum_ self
      then matching_cycle s1 msg
      else Some (s1, [])
    else Some (self, []).

(** The events the node reacts to, and a run of the callbacks over a
    sequence of them with everything published along the way. *)
Inductive Event : Type :=
| EvMap (msg : OccupancyGrid)
| EvOdom (msg : Odometry)
| EvScan (msg : LaserScan).

Definition step (self : GLPoseSampler) (ev : Event)
  : option (GLPoseSampler * list Publication) :=
  match ev with
  | EvMap msg => mapCB self msg
  | EvOdom msg => odomCB self msg
  | EvScan msg => scanCB self msg
  end.

Fixpoint run (self : GLPoseSampler) (evs : list Event)
  : option (GLPoseSampler * list Publication) :=
  match evs with
  | [] => Some (self, [])
  | ev :: evs' =>
      r <- step self ev ;;
      r' <- run (fst r) evs' ;;
      Some (fst r', snd r ++ snd r')
  end.

End Callbacks.

(* ================================================================== *)
(** ** [buildLocalMap]                                                 *)
(* ================================================================== *)

(** The value an unsigned 32-bit member takes when it is assigned an [int]
    or unsigned arithmetic. *)
Definition to_uint32 (z : Z) : Z := z mod 2 ^ 32.

(** [vec[n] = x].  Writing outside [0 .. size-1] is undefined in C++; the
    model leaves the vector as it is. *)
Definition vec_set {A : Type} (l : list A) (n : Z) (x : A) : list A :=
  if (0 <=? n) && (n <? Z.of_nat (length l))
  then firstn (Z.to_nat n) l ++ x :: skipn (S (Z.to_nat n)) l
  else l.

Definition d_three : double := S754_finite false 6755399441055744 (-51).
Definition d_1_5 : double := S754_finite false 6755399441055744 (-52).

(** The locals of the loop that walks along a beam. *)
Record RayState : Type := mkRayState {
  ray_r : double;
  ray_x : double;
  ray_y : double;
  ray_data : list Z
}.

Module LocalMap.

Section Build.

Variable ext : External.
Variable fuel : nat.
Variable self : GLPoseSampler.

(** [double rangeMax = keyScans_[0].range_max;] *)
Definition rangeMax : double :=
  f2d (range_max (nth 0 (keyScans_ self) LaserScan_default)).

(** [map.info.width = (int)(rangeMax * 3.0 / mapResolution_);] and the
    identical [map.info.height]. *)
Definition width : Z :=
  to_uint32 (trunc (ddiv (dmul rangeMax d_three) (mapResolution_ self))).

Definition height : Z :=
  to_uint32 (trunc (ddiv (dmul rangeMax d_three) (mapResolution_ self))).

(** [map.info.resolution = mapResolution_;] (a [float32] member). *)
Definition resolution : float := d2f (mapResolution_ self).

(** [map.info.origin.position.x = keyPoses_[0].getX() - rangeMax * 1.5;] *)
Definition origin_x : double :=
  dsub (pose_x (nth 0 (keyPoses_ self) Pose_default)) (dmul rangeMax d_1_5).

Definition origin_y : double :=
  dsub (pose_y (nth 0 (keyPoses_ self) Pose_default)) (dmul rangeMax d_1_5).

(** [u = (int)((x - origin.x) / resolution)], [v] likewise. *)
Definition cell_of (x y : double) : Z * Z :=
  (trunc (ddiv (dsub x origin_x) (f2d resolution)),
   trunc (ddiv (dsub y origin_y) (f2d resolution))).

(** [if (0 < u && u < width && 0 < v && v < height) map.data[v * width + u] = val;] *)
Definition mark (cells : list Z) (x y : double) (val : Z) : list Z :=
  let '(u, v) := cell_of x y in
  if (0 <? u) && (u <? width) && (0 <? v) && (v <? height)
  then vec_set cells (wrap_int32 (v * width + u)) val
  else cells.

(** One beam: the cells along it are set free in steps of one resolution
    ([for (double r = 0.0; r < range - mapResolution_; r += mapResolution_)]),
    then the cell of the end point is set occupied. *)
Definition trace_beam (cells : list Z) (sensorX sensorY t range : double)
  : option (list Z) :=
  let dx := dmul (mapResolution_ self) (ext_cos ext t) in
  let dy := dmul (mapResolution_ self) (ext_sin ext t) in
  st <- while_loop fuel
          (fun st => lt (ray_r st) (dsub range (mapResolution_ self)))
          (fun st => mkRayState (dadd (ray_r st) (mapResolution_ self))
                                (dadd (ray_x st) dx) (dadd (ray_y st) dy)
                                (mark (ray_data st) (ray_x st) (ray_y st) 0))
          (mkRayState zero sensorX sensorY cells) ;;
  Some (mark (ray_data st)
             (dadd (dmul range (ext_cos ext t)) sensorX)
             (dadd (dmul range (ext_sin ext t)) sensorY) 100).

(** The loop over the beams of one keyframe. *)
Fixpoint trace_beams (scan : LaserScan) (sensorX sensorY sensorYaw : double)
         (beams : list (Z * float)) (cells : list Z) : option (list Z) :=
  match beams with
  | [] => Some cells
  | (j, rf) :: rest =>
      let range := f2d rf in
      if lt range (f2d (range_min scan)) || lt (f2d (range_max scan)) range
      then trace_beams scan sensorX sensorY sensorYaw rest cells
      else if lt range (keypointsMinDistFromMap_ self)
      then trace_beams scan sensorX sensorY sensorYaw rest cells
      else
        let t := dadd (dadd (dmul (i2d j) (f2d (angle_increment scan)))
                            (f2d (angle_min scan))) sensorYaw in
        cells' <- trace_beam cells sensorX sensorY t range ;;
        trace_beams scan sensorX sensorY sensorYaw rest cells'
  end.

(** One iteration of the loop over the keyframes. *)
Definition trace_keyframe (cells : list Z) (i : Z) : option (list Z) :=
  let yaw := pose_yaw (baseLink2Laser_ self) in
  let c := ext_cos ext yaw in
  let s := ext_sin ext yaw in
  let keyPose := nth (Z.to_nat i) (keyPoses_ self) Pose_default in
  let sensorX := dadd (dsub (dmul (pose_x (baseLink2Laser_ self)) c)
                            (dmul (pose_y (baseLink2Laser_ self)) s))
                      (pose_x keyPose) in
  let sensorY := dadd (dadd (dmul (pose_x (baseLink2Laser_ self)) s)
                            (dmul (pose_y (baseLink2Laser_ self)) c))
                      (pose_y keyPose) in
  let sensorYaw := dadd yaw (pose_yaw keyPose) in
  let scan := nth (Z.to_nat i) (keyScans_ self) LaserScan_default in
  trace_beams scan sensorX sensorY sensorYaw
              (combine (zrange 0 (Z.of_nat (length (ranges scan)))) (ranges scan))
              cells.

Fixpoint trace_keyframes (idxs : list Z) (cells : list Z) : option (list Z) :=
  match idxs with
  | [] => Some cells
  | i :: rest =>
      cells' <- trace_keyframe cells i ;;
      trace_keyframes rest cells'
  end.

(** [buildLocalMap]: [None] when a beam loop does not finish within the
    bound. *)
Definition buildLocalMap : option OccupancyGrid :=
  cells <- trace_keyframes (zrange 0 (Z.of_nat (length (keyScans_ self))))
                           (repeat (-1) (Z.to_nat (to_uint32 (width * height)))) ;;
  Some (mkOccupancyGrid width height resolution origin_x origin_y
                        (mkQuaternion zero zero zero (S754_finite false 4503599627370496 (-52)))
                        cells).

End Build.

End LocalMap.

(** The cell values a local map may hold: unknown, free, occupied. *)
Definition local_cell_value (c : Z) : Prop := c = -1 \/ c = 0 \/ c = 100.

(** The invariant of the cell array while [buildLocalMap] fills a grid of
    [W] x [H] cells: its size, its values, and the untouched first row and
    first column. *)
Definition local_cells_inv (W H : Z) (cells : list Z) : Prop :=
  length cells = Z.to_nat (to_uint32 (W * H))
  /\ Forall local_cell_value cells
  /\ (forall u v, 0 <= u < W -> 0 <= v < H -> u = 0 \/ v = 0 ->
       nth (Z.to_nat (v * W + u)) cells (-1) = -1).

(* ================================================================== *)
(** ** Class [Histogram]                                               *)
(* ================================================================== *)

Definition d_minus_one : double := S754_finite true 4503599627370496 (-52).

Record Histogram : Type := mkHistogram {
  binWidth_ : double;
  minValue_ : double;
  maxValue_ : double;
  histogramSize_ : Z;
  valueNum_ : Z;
  histogram_ : list Z;
  probability_ : list double
}.

(** [val2bin]: the bin of a value, or [-1] outside the histogram. *)
Definition val2bin (self : Histogram) (val : double) : Z :=
  let bin := trunc (ddiv (dsub val (minValue_ self)) (binWidth_ self)) in
  if (bin <? 0) || (histogramSize_ self <=? bin) then -1 else bin.

(** [bin2val]: the lower edge of a bin. *)
Definition bin2val (self : Histogram) (bin : Z) : double :=
  dadd (dmul (i2d bin) (binWidth_ self)) (minValue_ self).

(** The body of the counting loop of [buildHistogram]. *)
Definition count_value (self : Histogram) (val : double) : Histogram :=
  let bin := val2bin self val in
  if 0 <=? bin
  then mkHistogram (binWidth_ self) (minValue_ self) (maxValue_ self)
                   (histogramSize_ self) (wrap_int32 (valueNum_ self + 1))
                   (vec_set (histogram_ self) bin
                            (wrap_int32 (nth (Z.to_nat bin) (histogram_ self) 0 + 1)))
                   (probability_ self)
  else self.

(** [for (i = 0; i < histogram_.size(); ++i)
       probability_[i] = (double)histogram_[i] / (double)valueNum_;] *)
Definition fill_probability (counts : list Z) (valueNum : Z)
           (probability : list double) : list double :=
  fold_left (fun p i => vec_set p i (ddiv (i2d (nth (Z.to_nat i) counts 0))
                                          (i2d valueNum)))
            (zrange 0 (wrap_int32 (Z.of_nat (length counts)))) probability.

(** [buildHistogram].  A negative [histogramSize_] makes [resize] throw
    ([None]). *)
Definition buildHistogram (self : Histogram) (values : list double)
  : option Histogram :=
  let size := wrap_int32 (trunc (ddiv (dsub (maxValue_ self) (minValue_ self))
                                      (binWidth_ self)) + 1) in
  if size <? 0 then None
  else
    let s0 := mkHistogram (binWidth_ self) (minValue_ self) (maxValue_ self)
                          size 0
                          (vec_resize (Z.to_nat size) (histogram_ self) 0)
                          (probability_ self) in
    let s1 := fold_left count_value
                        (firstn (Z.to_nat (wrap_int32 (Z.of_nat (length values))))
                                values)
                        s0 in
    Some (mkHistogram (binWidth_ s1) (minValue_ s1) (maxValue_ s1)
                      (histogramSize_ s1) (valueNum_ s1) (histogram_ s1)
                      (fill_probability (histogram_ s1) (valueNum_ s1)
                         (vec_resize (Z.to_nat size) (probability_ s1) zero))).

(** [Histogram(values, binWidth, minValue, maxValue)]: the two vectors start
    empty; the two counters are assigned by [buildHistogram] before they are
    read. *)
Definition Histogram_with_range (values : list double)
           (binWidth minValue maxValue : double) : option Histogram :=
  buildHistogram (mkHistogram binWidth minValue maxValue 0 0 [] []) values.

(** [getProbability]. *)
Definition getProbability (self : Histogram) (value : double) : double :=
  let value := if ge value (maxValue_ self) then dsub value (binWidth_ self)
               else value in
  let bin := val2bin self value in
  if 0 <=? bin then nth (Z.to_nat bin) (probability_ self) S754_nan
  else d_minus_one.

(** The number of the values that fall in bin [k]. *)
Definition values_in_bin (self : Histogram) (values : list double) (k : Z) : Z :=
  Z.of_nat (length (filter (fun v => val2bin self v =? k) values)).

(** The number of the values that fall in some bin. *)
Definition values_in_range (self : Histogram) (values : list double) : Z :=
  Z.of_nat (length (filter (fun v => 0 <=? val2bin self v) values)).

(** The bins depend on the range, the bin width and the size only. *)
Definition same_bins (s s' : Histogram) : Prop :=
  binWidth_ s' = binWidth_ s /\ minValue_ s' = minValue_ s
  /\ maxValue_ s' = maxValue_ s /\ histogramSize_ s' = histogramSize_ s.

(** The scan messages among a sequence of events, in arrival order. *)
Fixpoint scans_of (evs : list Event) : list LaserScan :=
  match evs with
  | [] => []
  | EvScan msg :: evs' => msg :: scans_of evs'
  | _ :: evs' => scans_of evs'
  end.

(** [Subseq l k]: [l] is [k] with some elements left out, the order kept. *)
Inductive Subseq {A : Type} : list A -> list A -> Prop :=
| Subseq_nil : Subseq [] []
| Subseq_skip (x : A) (l k : list A) : Subseq l k -> Subseq l (x :: k)
| Subseq_keep (x : A) (l k : list A) : Subseq l k -> Subseq (x :: l) (x :: k).

(** The members the keyframe bookkeeping of [scanCB] reads or writes agree
    in two states of the node. *)
Definition same_keyframe_members (s s' : GLPoseSampler) : Prop :=
  keyScansNum_ s' = keyScansNum_ s
  /\ keyScanIntervalDist_ s' = keyScanIntervalDist_ s
  /\ keyScanIntervalYaw_ s' = keyScanIntervalYaw_ s
  /\ keyScans_ s' = keyScans_ s
  /\ keyPoses_ s' = keyPoses_ s
  /\ odomPose_ s' = odomPose_ s
  /\ gotOdom_ s' = gotOdom_ s
  /\ scanCB_isFirst s' = scanCB_isFirst s
  /\ scanCB_prevOdomPose s' = scanCB_prevOdomPose s.

(** The static [prevOdomPose] is the pose of the keyframe at the front of the
    window, its yaw wrapped by [setPose]. *)
Definition prev_is_front (fuel : nat) (s : GLPoseSampler) : Prop :=
  exists p rest y,
    keyPoses_ s = p :: rest
    /\ modifyYaw fuel (pose_yaw p) = Some y
    /\ scanCB_prevOdomPose s = mkPose (pose_x p) (pose_y p) y.

(** The invariant of the keyframe window after the scans [hist] (in arrival
    order) have been received, for a capacity [N]. *)
Definition window_inv (fuel : nat) (N : Z) (hist : list LaserScan)
           (s : GLPoseSampler) : Prop :=
  keyScansNum_ s = N
  /\ lt (keyScanIntervalDist_ s) zero = false
  /\ lt (keyScanIntervalYaw_ s) zero = false
  /\ Z.of_nat (length (keyScans_ s)) <= N
  /\ length (keyPoses_ s) = length (keyScans_ s)
  /\ Subseq (keyScans_ s) (rev hist)
  /\ (scanCB_isFirst s = true ->
      keyScans_ s = [] /\ keyPoses_ s = [] /\ scanCB_prevOdomPose s = Pose_default)
  /\ (scanCB_isFirst s = false -> prev_is_front fuel s)
  /\ (gotOdom_ s = false -> odomPose_ s = Pose_default).

(** The dynamic members as the constructor leaves them: no map, no odometry,
    [odomPose_.setPose(0.0, 0.0, 0.0)], an empty window, and the statics of
    [scanCB] at their initial values. *)
Definition constructed (s : GLPoseSampler) : Prop :=
  gotMap_ s = false /\ gotOdom_ s = false /\ odomPose_ s = Pose_default
  /\ keyScans_ s = [] /\ keyPoses_ s = []
  /\ scanCB_isFirst s = true /\ scanCB_prevOdomPose s = Pose_default.

(* ================================================================== *)
(** ** Closed inputs for the examples                                  *)
(* ================================================================== *)

(** The [float] and the [double] nearest to [m * 2^e]. *)
Definition flt (m e : Z) : float := binary_normalize fprec femax m e false.
Definition dbl (m e : Z) : double := binary_normalize dprec demax m e false.

(** The external functions at the only arguments the examples call them
    with: [cos 0 = 1], [sin 0 = 0], [atan2] and [log] at arguments whose
    result is [0], the yaw of the identity orientation, and a random source
    that draws [RAND_MAX] (so that [nrand] adds no noise). *)
Definition ext_axis : External :=
  mkExternal (fun _ => dbl 1 0)
             (fun x => match x with S754_zero s => S754_zero s | _ => zero end)
             (fun _ _ => zero)
             (fun _ => zero) (fun _ => zero) (fun seed => (RAND_MAX, seed + 1)).

Definition identity_orientation : Quaternion := mkQuaternion zero zero zero (dbl 1 0).

(** The node when the constructor returns, with the default value of every
    declared parameter ([key_scans_num] 5, [key_scan_interval_dist] 0.5,
    [key_scan_interval_yaw] 5 degrees, [gradient_square_th] 10e-4,
    [keypoints_min_dist_from_map] 1.0, [sdf_feature_window_size] 1.0,
    [average_sdf_delta_th] 1.0, random and opposite samples on, 10 samples,
    noises 0.5 and 0.3, [matching_rate_th] 0.1) and a zero base-to-laser
    offset. *)
Definition node_default : GLPoseSampler :=
  mkGLPoseSampler Pose_default 0 0 zero Pose_default [] false
    (dbl 1 (-1)) (dmul (dbl 5 0) (ddiv M_PI d_180))
    [] 5 Pose_default [] false
    [] [] (S754_finite false 4611686018427388 (-62))
    (dbl 1 0) (dbl 1 0) (dbl 1 0)
    true true 10
    (dbl 1 (-1)) (S754_finite false 5404319552844595 (-54)) d_0_1
    true Pose_default 0.

(** A 3 x 3 grid of free cells at resolution 1, and a distance field on it
    whose centre is a local maximum:
    [dx = 1/32], [dy = -1/32], [dxx = -2], [dyy = -1], [dxy = 1], [det = 1]. *)
Definition grid3 : OccupancyGrid :=
  mkOccupancyGrid 3 3 (flt 1 0) zero zero identity_orientation
                  [0; 0; 0; 0; 0; 0; 0; 0; 0].

Definition field3 : Mat :=
  mkMat 3 3 [ flt 2 0; flt 5 (-1); flt 65 (-5);
              flt 2 0; flt 3 0;    flt 2 0;
              flt 2 0; flt 5 (-1); flt 2 0 ].

(** A pipeline whose local map is always [grid3], with the field [field3]. *)
Definition pipe_fixed : Pipeline := mkPipeline (fun _ => grid3) (fun _ => field3).

(** A scan with a single beam of range [r] at angle 0 ([range_min] 0.5,
    [range_max] 10), and a scan of 20 beams of which one is in range. *)
Definition scan_one (stamp : Z) (r : float) : LaserScan :=
  mkLaserScan stamp zero zero (flt 1 (-1)) (flt 10 0) [r].

Definition scan_sparse : LaserScan :=
  mkLaserScan 7 zero zero (flt 1 (-1)) (flt 10 0) (flt 1 0 :: repeat (flt 20 0) 19).

Definition odom_at (x : double) : Odometry := mkOdometry x zero identity_orientation.

(** Odometry at the origin, a first scan, a move of one metre, a second scan. *)
Definition two_keyframes : list Event :=
  [EvOdom (odom_at zero); EvScan (scan_one 1 (flt 2 0));
   EvOdom (odom_at (dbl 1 0)); EvScan (scan_one 2 (flt 3 0))].

(** [grid3] and [field3] moved one column to the right: a 4 x 3 grid of free
    cells and a field whose columns 1 .. 3 are the columns 0 .. 2 of [field3]. *)
Definition grid4 : OccupancyGrid :=
  mkOccupancyGrid 4 3 (flt 1 0) zero zero identity_orientation
                  [0; 0; 0; 0; 0; 0; 0; 0; 0; 0; 0; 0].

Definition field4 : Mat :=
  mkMat 3 4 [ flt 9 0; flt 2 0; flt 5 (-1); flt 65 (-5);
              flt 9 0; flt 2 0; flt 3 0;    flt 2 0;
              flt 9 0; flt 2 0; flt 5 (-1); flt 2 0 ].

(** The default node after a 3 x 3 map of resolution 1 has been installed
    by [setMapInfo] (the feature window then has radius 1). *)
Definition node_mapped : GLPoseSampler :=
  set_mapInfo node_default 3 3 (dbl 1 0) (data grid3).

(** A 5 x 5 field of constant distance 2: every gradient is zero. *)
Definition field5 : Mat := mkMat 5 5 (repeat (flt 2 0) 25).

(** The loop of [findCorrespondingFeatures] over the candidates it
    considers, given with their scores. *)
Definition match_fold (cands : list (Z * Z)) (acc : MatchAcc) : MatchAcc :=
  fold_left (fun a c => match_update a (fst c) (snd c)) cands acc.

(** A histogram of 17 bins with [n] in the first bin. *)
Definition hist_first (n : Z) : list Z := n :: repeat 0 16.

(** Three global maxima whose histograms are at L1 distance 2, 10 and 3 from
    the empty histogram, installed in the default node; and a local maximum
    with the empty histogram and the same average. *)
Definition node_three : GLPoseSampler :=
  set_globalFeatures node_default
    [mkKeypoint 1 1 zero zero 1; mkKeypoint 2 1 zero zero 1; mkKeypoint 3 1 zero zero 1]
    [mkFeature zero (dbl 1 0) (hist_first 2); mkFeature zero (dbl 1 0) (hist_first 10);
     mkFeature zero (dbl 1 0) (hist_first 3)].

Definition local_kp : Keypoint := mkKeypoint 5 5 zero zero 1.
Definition local_feature : SDFOrientationFeature :=
  mkFeature zero (dbl 1 0) (hist_first 0).

(** The locals after the loop, by the number of candidates considered. *)
Definition match_state (cands : list (Z * Z)) (acc : MatchAcc) : Prop :=
  match cands with
  | [] => acc = MatchAcc_init
  | [c] => acc = mkMatchAcc false true (fst c) 0 (snd c) (-1)
  | _ => isFirst acc = false /\ isSecond acc = false
         /\ In (idx1 acc, min1 acc) cands
         /\ Forall (fun c => min1 acc <= snd c) cands
         /\ In (idx2 acc, min2 acc) cands
         /\ min1 acc <= min2 acc
  end.

(** A 6 x 3 map of resolution 1 whose only occupied cell is [(4, 1)],
    installed in the default node together with a window of two keyframes:
    the newer scan has one beam of range 3, the older one a beam of range 1.
    From the pose [(1.5, 1.5, 0)] the newer beam ends on the occupied cell,
    the older one on the free cell [(2, 1)]. *)
Definition data63 : list Z :=
  [0; 0; 0; 0; 0; 0;
   0; 0; 0; 0; 100; 0;
   0; 0; 0; 0; 0; 0].

Definition pose_15 : Pose := mkPose (dbl 3 (-1)) (dbl 3 (-1)) zero.

Definition node_verify : GLPoseSampler :=
  set_keyframes (set_mapInfo node_default 6 3 (dbl 1 0) data63)
                [scan_one 2 (flt 3 0); scan_one 1 (flt 1 0)]
                [pose_15; pose_15] pose_15.

(** The same node with a window whose only scan has its single beam at
    range 0.75: inside [range_min, range_max] but below the minimum-distance
    threshold 1.0. *)
Definition node_short_beam : GLPoseSampler :=
  set_keyframes (set_mapInfo node_default 6 3 (dbl 1 0) data63)
                [scan_one 1 (flt 3 (-2))] [pose_15] pose_15.

(** The largest number of poses one candidate can contribute. *)
Definition samples_per_candidate (self : GLPoseSampler) : nat :=
  if addRandomSamples_ self then Z.to_nat (randomSamplesNum_ self) else 1%nat.

(** The sampling parameters of a node replaced ([add_random_samples],
    [add_opposite_samples], [random_samples_num], [matching_rate_th]). *)
Definition set_sampling (s : GLPoseSampler) (random opposite : bool) (n : Z)
           (th : double) : GLPoseSampler :=
  mkGLPoseSampler (baseLink2Laser_ s) (mapWidth_ s) (mapHeight_ s) (mapResolution_ s)
    (mapOrigin_ s) (mapData_ s) (gotMap_ s) (keyScanIntervalDist_ s)
    (keyScanIntervalYaw_ s)
    (keyScans_ s) (keyScansNum_ s) (odomPose_ s) (keyPoses_ s) (gotOdom_ s)
    (sdfKeypoints_ s) (sdfOrientationFeatures_ s) (gradientSquareTH_ s)
    (keypointsMinDistFromMap_ s) (sdfFeatureWindowSize_ s) (averageSDFDeltaTH_ s)
    random opposite n
    (positionalRandomNoise_ s) (angularRandomNoise_ s) th
    (scanCB_isFirst s) (scanCB_prevOdomPose s) (rand_seed s).

(** The 6 x 3 map with a window of one scan (a beam of range 3), random
    sampling switched off: the candidate sensor pose [(1.5, 1.5, 0)] is
    verified with a matching rate of 1. *)
Definition node_accept : GLPoseSampler :=
  set_sampling
    (set_keyframes (set_mapInfo node_default 6 3 (dbl 1 0) data63)
                   [scan_one 2 (flt 3 0)] [pose_15] pose_15)
    false false 10 d_0_1.

(** A local keypoint at [(1.5, 1.5)] seen from the odometry pose [(0, 0, 0)]. *)
Definition local_kp_15 : Keypoint := mkKeypoint 1 1 (dbl 3 (-1)) (dbl 3 (-1)) 1.

(** A scan message without beams. *)
Definition scan_empty : LaserScan :=
  mkLaserScan 9 zero zero (flt 1 (-1)) (flt 10 0) [].

(** Four keyframes one metre apart, and the odometry of a fifth: the next
    valid scan fills the default window of five and starts a matching cycle. *)
Definition four_keyframes : list Event :=
  [EvOdom (odom_at zero); EvScan (scan_one 1 (flt 2 0));
   EvOdom (odom_at (dbl 1 0)); EvScan (scan_one 2 (flt 2 0));
   EvOdom (odom_at (dbl 2 0)); EvScan (scan_one 3 (flt 2 0));
   EvOdom (odom_at (dbl 3 0)); EvScan (scan_one 4 (flt 2 0));
   EvOdom (odom_at (dbl 4 0))].

(** The node after [four_keyframes], from the default node. *)
Definition node_four : GLPoseSampler :=
  Eval vm_compute in
    match run ext_axis pipe_fixed 0 node_default four_keyframes with
    | Some (st, _) => st
    | None => node_default
    end.

(** An event is not an odometry message. *)
Definition not_odom (ev : Event) : Prop :=
  match ev with
  | EvOdom _ => False
  | _ => True
  end.

(** A publication is a global keypoint marker (what [mapCB] publishes). *)
Definition is_map_marker (p : Publication) : Prop :=
  match p with
  | PubSdfKeypoints _ _ => True
  | _ => False
  end.

(** The default node with resolution 1 and a window of one keyframe at the
    origin whose scan has one beam of range 2 along the x axis. *)
Definition node_one_keyframe : GLPoseSampler :=
  set_keyframes (set_mapInfo node_default 6 3 (dbl 1 0) data63)
                [scan_one 1 (flt 2 0)] [Pose_default] Pose_default.

(** The local map of [node_one_keyframe]. *)
Definition local_map_one : OccupancyGrid :=
  Eval vm_compute in
    match LocalMap.buildLocalMap ext_axis 5 node_one_keyframe with
    | Some m => m
    | None => grid3
    end.

(** [-inf], and the test for a number that is neither infinite nor a NaN. *)
Definition d_minus_infinity : double := S754_infinity true.

Definition is_finite (x : spec_float) : bool :=
  match x with
  | S754_zero _ | S754_finite _ _ _ => true
  | _ => false
  end.

(** External functions whose random source draws [0] and whose logarithm
    answers [log 0 = -inf]. *)
Definition ext_zero_draw : External :=
  mkExternal (fun _ => dbl 1 0) (fun _ => zero) (fun _ _ => zero)
             (fun x => match x with S754_zero _ => d_minus_infinity | _ => zero end)
             (fun _ => zero) (fun seed => (0, seed + 1)).

(** Four values for a histogram over [0, 2] with bins of width 1: 0.5, 1.5,
    1.75 and 5. *)
Definition values_four : list double :=
  [dbl 1 (-1); dbl 3 (-1); dbl 7 (-2); dbl 5 0].

Definition histogram_four : Histogram :=
  Eval vm_compute in
    match Histogram_with_range values_four (dbl 1 0) zero (dbl 2 0) with
    | Some h => h
    | None => mkHistogram zero zero zero 0 0 [] []
    end.

(** The histogram over [0, 2] of the one value 5, which lies outside. *)
Definition histogram_outside : Histogram :=
  Eval vm_compute in
    match Histogram_with_range [dbl 5 0] (dbl 1 0) zero (dbl 2 0) with
    | Some h => h
    | None => mkHistogram zero zero zero 0 0 [] []
    end.

(* ================================================================== *)
(** * Properties                                                       *)
(* ================================================================== *)

(** ** Lists and ranges *)

Lemma in_zrange (lo hi k : Z) : In k (zrange lo hi) <-> lo <= k < hi.
Proof.
  unfold zrange. rewrite in_map_iff. split.
  - intros [n [<- Hn]]. apply in_seq in Hn. lia.
  - intros H. exists (Z.to_nat (k - lo)). split; [lia|].
    apply in_seq. lia.
Qed.

Lemma NoDup_zrange (lo hi : Z) : NoDup (zrange lo hi).
Proof.
  unfold zrange. apply Injective_map_NoDup.
  - intros a b H. lia.
  - apply seq_NoDup.
Qed.

Lemma flat_map_nil {A B : Type} (h : A -> list B) (l : list A) :
  (forall x, In x l -> h x = []) -> flat_map h l = [].
Proof.
  induction l as [|x l IH]; intros H; [reflexivity|]. simpl.
  rewrite H by now left. simpl. apply IH. intros y Hy. apply H. now right.
Qed.

(** In a loop over distinct values where a single iteration contributes,
    the result is that iteration's contribution. *)
Lemma flat_map_single {A B : Type} (h : A -> list B) (a : A) (l : list A) :
  NoDup l -> In a l -> (forall x, In x l -> x <> a -> h x = []) ->
  flat_map h l = h a.
Proof.
  induction l as [|x l IH]; intros Hnd Hin Hothers; [contradiction|].
  inversion Hnd as [|? ? Hx Hnd']; subst. simpl.
  destruct Hin as [->|Hin].
  - rewrite (flat_map_nil h l), app_nil_r; [reflexivity|].
    intros y Hy. apply Hothers; [now right|].
    intros ->. contradiction.
  - rewrite (Hothers x); [|now left|intros ->; contradiction].
    simpl. apply IH; auto.
    intros z Hz Hne. apply Hothers; auto. now right.
Qed.

Lemma filter_flat_map {A B : Type} (p : B -> bool) (h : A -> list B) (l : list A) :
  filter p (flat_map h l) = flat_map (fun x => filter p (h x)) l.
Proof.
  induction l as [|x l IH]; [reflexivity|]. simpl.
  rewrite filter_app, IH. reflexivity.
Qed.

(** ** Comparisons of floating-point values *)

Lemma SFcompare_antisym (x y : spec_float) :
  SFcompare y x = option_map CompOpp (SFcompare x y).
Proof.
  destruct x as [sx|sx| |sx mx ex], y as [sy|sy| |sy my ey]; simpl;
    try reflexivity;
    try (destruct sx; reflexivity);
    try (destruct sy; reflexivity);
    try (destruct sx, sy; reflexivity).
  destruct sx, sy; simpl; try reflexivity.
  - rewrite (Z.compare_antisym ex ey).
    destruct (ex ?= ey); simpl; try reflexivity.
    rewrite (Pos.compare_cont_antisym mx my Eq). reflexivity.
  - rewrite (Z.compare_antisym ex ey).
    destruct (ex ?= ey); simpl; try reflexivity.
    rewrite (Pos.compare_cont_antisym mx my Eq). reflexivity.
Qed.

Lemma SFcompare_none (x y : spec_float) :
  SFcompare x y = None -> is_nan x = true \/ is_nan y = true.
Proof.
  destruct x as [sx|sx| |sx mx ex], y as [sy|sy| |sy my ey]; simpl;
    intros H; try discriminate H; auto.
Qed.

(** [x < y] excludes [y <= x]; the converse needs both to be numbers. *)
Lemma le_not_lt (x y : spec_float) : le x y = true -> lt y x = false.
Proof.
  unfold le, lt, SFleb, SFltb. rewrite (SFcompare_antisym x y).
  destruct (SFcompare x y) as [[]|]; simpl; congruence.
Qed.

Lemma not_lt_le (x y : spec_float) :
  is_nan x = false -> is_nan y = false -> lt y x = false -> le x y = true.
Proof.
  unfold le, lt, SFleb, SFltb. intros Hx Hy. rewrite (SFcompare_antisym x y).
  destruct (SFcompare x y) as [[]|] eqn:E; simpl; try congruence.
  destruct (SFcompare_none _ _ E); congruence.
Qed.

Lemma lt_not_nan (x y : spec_float) :
  lt x y = true -> is_nan x = false /\ is_nan y = false.
Proof.
  unfold lt, SFltb. destruct x, y; simpl; intros H; try discriminate H; auto.
Qed.

Lemma lt_gt_exclusive (x y : spec_float) : lt x y = true -> gt x y = false.
Proof.
  unfold lt, gt, SFltb. rewrite (SFcompare_antisym x y).
  destruct (SFcompare x y) as [[]|]; simpl; congruence.
Qed.

(** A NaN operand makes the result a NaN: the contrapositives used below. *)
Lemma f2d_nan (x : float) : is_nan (f2d x) = false -> is_nan x = false.
Proof. destruct x; simpl; congruence. Qed.

Lemma d2f_nan (x : double) : is_nan (d2f x) = false -> is_nan x = false.
Proof. destruct x; simpl; congruence. Qed.

Lemma SFadd_nan (p e : Z) (x y : spec_float) :
  is_nan (SFadd p e x y) = false -> is_nan x = false /\ is_nan y = false.
Proof. destruct x, y; simpl; intros H; try discriminate H; auto. Qed.

Lemma SFsub_nan (p e : Z) (x y : spec_float) :
  is_nan (SFsub p e x y) = false -> is_nan x = false /\ is_nan y = false.
Proof. destruct x, y; simpl; intros H; try discriminate H; auto. Qed.

Lemma SFmul_nan (p e : Z) (x y : spec_float) :
  is_nan (SFmul p e x y) = false -> is_nan x = false /\ is_nan y = false.
Proof. destruct x, y; simpl; intros H; try discriminate H; auto. Qed.

Lemma fsub_nan (x y : float) :
  is_nan (fsub x y) = false -> is_nan x = false /\ is_nan y = false.
Proof. apply SFsub_nan. Qed.

Lemma fmul_nan (x y : float) :
  is_nan (fmul x y) = false -> is_nan x = false /\ is_nan y = false.
Proof. apply SFmul_nan. Qed.

Lemma fadd_nan (x y : float) :
  is_nan (fadd x y) = false -> is_nan x = false /\ is_nan y = false.
Proof. apply SFadd_nan. Qed.

Lemma dadd_nan (x y : double) :
  is_nan (dadd x y) = false -> is_nan x = false /\ is_nan y = false.
Proof. apply SFadd_nan. Qed.

Lemma dsub_nan (x y : double) :
  is_nan (dsub x y) = false -> is_nan x = false /\ is_nan y = false.
Proof. apply SFsub_nan. Qed.

Lemma dmul_nan (x y : double) :
  is_nan (dmul x y) = false -> is_nan x = false /\ is_nan y = false.
Proof. apply SFmul_nan. Qed.

Lemma hess_dxx_centre (distMap : Mat) (v u : Z) :
  is_nan (hess_dxx distMap v u) = false ->
  is_nan (f2d (mat_at distMap (v + 0) (u + 0))) = false.
Proof.
  intros H.
  exact (proj2 (dmul_nan _ _
           (proj2 (dsub_nan _ _ (proj1 (dadd_nan _ _ (d2f_nan _ H))))))).
Qed.

(** A Hessian determinant that is a number was computed from a centre value
    that is a number. *)
Lemma hess_det_centre (distMap : Mat) (v u : Z) :
  is_nan (f2d (hess_det distMap v u)) = false ->
  is_nan (f2d (mat_at distMap v u)) = false.
Proof.
  intros H.
  pose proof (hess_dxx_centre distMap v u
                (proj1 (fmul_nan _ _ (proj1 (fsub_nan _ _ (f2d_nan _ H)))))) as Hc.
  rewrite !Z.add_0_r in Hc. exact Hc.
Qed.

(** ** The keypoint detector *)

Lemma detect_cell_spec ext self map distMap u v kp :
  In kp (detect_cell ext self map distMap u v) ->
  kp_u kp = u /\ kp_v kp = v
  /\ detect_type self map distMap u v = Some (kp_type kp).
Proof.
  unfold detect_cell. destruct (detect_type self map distMap u v) as [t|];
    [|contradiction].
  destruct (cell_xy ext map u v) as [x y]. intros [<-|[]]. auto.
Qed.

Lemma keypoints_at_own_cell ext self map distMap u v :
  keypoints_at u v (detect_cell ext self map distMap u v)
  = detect_cell ext self map distMap u v.
Proof.
  unfold keypoints_at, detect_cell.
  destruct (detect_type self map distMap u v) as [t|]; [|reflexivity].
  destruct (cell_xy ext map u v) as [x y]. simpl.
  rewrite !Z.eqb_refl. reflexivity.
Qed.

Lemma keypoints_at_other_cell ext self map distMap u v u' v' :
  (u', v') <> (u, v) ->
  keypoints_at u v (detect_cell ext self map distMap u' v') = [].
Proof.
  intros Hne. unfold keypoints_at, detect_cell.
  destruct (detect_type self map distMap u' v') as [t|]; [|reflexivity].
  destruct (cell_xy ext map u' v') as [x y]. simpl.
  destruct (u' =? u) eqn:Eu; [|reflexivity].
  destruct (v' =? v) eqn:Ev; [|reflexivity].
  apply Z.eqb_eq in Eu, Ev. subst. contradiction.
Qed.

(** The keypoints the detector returns for a cell are those its loop body
    pushed for that cell, and nothing is returned outside the loops' range. *)
Lemma keypoints_at_detectKeypoints ext self map distMap u v :
  keypoints_at u v (detectKeypoints ext self map distMap)
  = if interior map u v then detect_cell ext self map distMap u v else [].
Proof.
  unfold detectKeypoints, keypoints_at.
  rewrite filter_flat_map.
  set (us := zrange 1 (wrap_int32 (info_width map) - 1)).
  set (vs := zrange 1 (wrap_int32 (info_height map) - 1)).
  assert (Hcol : forall u', u' <> u ->
            filter (fun kp => (kp_u kp =? u) && (kp_v kp =? v))
                   (flat_map (fun v' => detect_cell ext self map distMap u' v') vs)
            = []).
  { intros u' Hu. rewrite filter_flat_map. apply flat_map_nil.
    intros v' _. apply (keypoints_at_other_cell ext self map distMap u v u' v').
    congruence. }
  destruct (interior map u v) eqn:Hint.
  - unfold interior in Hint.
    apply andb_prop in Hint as [Hint Hv2]. apply andb_prop in Hint as [Hint Hv1].
    apply andb_prop in Hint as [Hu1 Hu2].
    rewrite (flat_map_single _ u us).
    + rewrite filter_flat_map. rewrite (flat_map_single _ v vs).
      * apply (keypoints_at_own_cell ext self map distMap u v).
      * apply NoDup_zrange.
      * apply in_zrange. lia.
      * intros v' _ Hv.
        apply (keypoints_at_other_cell ext self map distMap u v u v').
        congruence.
    + apply NoDup_zrange.
    + apply in_zrange. lia.
    + intros u' _ Hu. apply Hcol, Hu.
  - apply flat_map_nil. intros u' Hu'.
    destruct (Z.eq_dec u' u) as [->|Hne]; [|apply Hcol, Hne].
    rewrite filter_flat_map. apply flat_map_nil. intros v' Hv'.
    destruct (Z.eq_dec v' v) as [->|Hnv].
    + apply in_zrange in Hu', Hv'. unfold interior in Hint.
      assert ((1 <=? u) = true) by (apply Z.leb_le; lia).
      assert ((u <? wrap_int32 (info_width map) - 1) = true) by (apply Z.ltb_lt; lia).
      assert ((1 <=? v) = true) by (apply Z.leb_le; lia).
      assert ((v <? wrap_int32 (info_height map) - 1) = true) by (apply Z.ltb_lt; lia).
      rewrite H, H0, H1, H2 in Hint. discriminate Hint.
    + apply (keypoints_at_other_cell ext self map distMap u v u v').
      congruence.
Qed.

Lemma in_detectKeypoints ext self map distMap kp :
  In kp (detectKeypoints ext self map distMap) ->
  interior map (kp_u kp) (kp_v kp) = true
  /\ detect_type self map distMap (kp_u kp) (kp_v kp) = Some (kp_type kp).
Proof.
  unfold detectKeypoints. intros H.
  apply in_flat_map in H as [u [Hu H]].
  apply in_flat_map in H as [v [Hv H]].
  apply detect_cell_spec in H as [<- [<- Ht]].
  apply in_zrange in Hu, Hv. split; [|exact Ht].
  unfold interior.
  repeat (apply andb_true_intro; split);
    try (apply Z.leb_le; lia); apply Z.ltb_lt; lia.
Qed.

(** The types of the keypoints pushed for a cell do not depend on the
    external functions. *)
Lemma detect_cell_types ext self map distMap u v :
  List.map kp_type (detect_cell ext self map distMap u v)
  = match detect_type self map distMap u v with
    | Some t => [t]
    | None => []
    end.
Proof.
  unfold detect_cell. destruct (detect_type self map distMap u v); [|reflexivity].
  destruct (cell_xy ext map u v). reflexivity.
Qed.

Lemma eqb_zero_signs (x : spec_float) :
  SFeqb x zero = true -> gt x zero = false /\ lt x zero = false.
Proof.
  unfold SFeqb, gt, lt, SFltb. rewrite (SFcompare_antisym x zero).
  destruct (SFcompare x zero) as [[]|]; simpl; intros H; try discriminate H; auto.
Qed.

Lemma detect_type_considered self map distMap u v :
  vec_get (data map) (cellIndex map v u) = Some 0 ->
  lt (f2d (mat_at distMap v u)) (keypointsMinDistFromMap_ self) = false ->
  detect_type self map distMap u v
  = if gradient_flat self distMap u v
    then classify (hess_det distMap v u) (hess_dxx distMap v u)
    else None.
Proof.
  intros Hfree Hdist. unfold detect_type, cell_skipped.
  rewrite Hfree, Hdist. reflexivity.
Qed.

(** C1.  For an interior cell that is free, whose distance value is at least
    the minimum-distance threshold and that passes the flatness test, the
    keypoints [detectKeypoints] returns for the cell are determined by the
    signs of [det] and [dxx]: one Maximum (type 1) exactly when [det > 0] and
    [dxx < 0], one Minimum (type -1) exactly when [det > 0] and [dxx > 0], one
    Saddle (type 0) exactly when [det < 0], and none exactly in every other
    case, which covers [det = 0] and [det > 0] with [dxx = 0]. *)
Theorem detectKeypoints_classification ext self map distMap u v :
  interior map u v = true ->
  vec_get (data map) (cellIndex map v u) = Some 0 ->
  le (keypointsMinDistFromMap_ self) (f2d (mat_at distMap v u)) = true ->
  gradient_flat self distMap u v = true ->
  let det := f2d (hess_det distMap v u) in
  let dxx := f2d (hess_dxx distMap v u) in
  let emitted :=
    List.map kp_type (keypoints_at u v (detectKeypoints ext self map distMap)) in
  (emitted = [TYPE_MAXIMUM] <-> gt det zero = true /\ lt dxx zero = true)
  /\ (emitted = [TYPE_MINIMUM] <-> gt det zero = true /\ gt dxx zero = true)
  /\ (emitted = [TYPE_SADDLE] <-> lt det zero = true)
  /\ (emitted = [] <->
      gt det zero && lt dxx zero = false
      /\ gt det zero && gt dxx zero = false
      /\ lt det zero = false)
  /\ (SFeqb det zero = true \/ (gt det zero = true /\ SFeqb dxx zero = true) ->
      emitted = []).
Proof.
  intros Hint Hfree Hdist Hflat det dxx emitted.
  assert (Hem : emitted
                = match classify (hess_det distMap v u) (hess_dxx distMap v u) with
                  | Some t => [t]
                  | None => []
                  end).
  { subst emitted. rewrite keypoints_at_detectKeypoints, Hint, detect_cell_types.
    rewrite (detect_type_considered self map distMap u v Hfree (le_not_lt _ _ Hdist)).
    rewrite Hflat. reflexivity. }
  clearbody emitted. subst emitted. unfold classify. fold det dxx.
  assert (Hdet : lt det zero = true -> gt det zero = false)
    by apply lt_gt_exclusive.
  assert (Hdxx : lt dxx zero = true -> gt dxx zero = false)
    by apply lt_gt_exclusive.
  assert (Hez : forall x, SFeqb x zero = true -> gt x zero = false /\ lt x zero = false)
    by apply eqb_zero_signs.
  unfold TYPE_MAXIMUM, TYPE_MINIMUM, TYPE_SADDLE.
  destruct (gt det zero) eqn:G, (lt det zero) eqn:L;
    try (specialize (Hdet eq_refl); discriminate Hdet);
    destruct (lt dxx zero) eqn:L2, (gt dxx zero) eqn:G2;
    try (specialize (Hdxx eq_refl); discriminate Hdxx);
    simpl;
    repeat split; try intros; try discriminate; try tauto;
    try solve [intuition congruence];
    try (match goal with
         | H : _ \/ _ |- _ =>
             destruct H as [H|[H1 H]]; apply Hez in H; destruct H; congruence
         end).
Qed.

Lemma detectKeypoints_classification_witness :
  interior grid3 1 1 = true
  /\ vec_get (data grid3) (cellIndex grid3 1 1) = Some 0
  /\ le (keypointsMinDistFromMap_ node_default) (f2d (mat_at field3 1 1)) = true
  /\ gradient_flat node_default field3 1 1 = true
  /\ List.map kp_type
       (keypoints_at 1 1 (detectKeypoints ext_axis node_default grid3 field3))
     = [TYPE_MAXIMUM].
Proof.
  assert (Hi : interior grid3 1 1 = true) by (vm_compute; reflexivity).
  assert (Hf : vec_get (data grid3) (cellIndex grid3 1 1) = Some 0)
    by (vm_compute; reflexivity).
  assert (Hd : le (keypointsMinDistFromMap_ node_default) (f2d (mat_at field3 1 1))
               = true) by (vm_compute; reflexivity).
  assert (Hg : gradient_flat node_default field3 1 1 = true)
    by (vm_compute; reflexivity).
  split; [exact Hi|]. split; [exact Hf|]. split; [exact Hd|]. split; [exact Hg|].
  destruct (detectKeypoints_classification ext_axis node_default grid3 field3 1 1
              Hi Hf Hd Hg) as [Hmax _].
  apply Hmax. split; vm_compute; reflexivity.
Defined.

Lemma classify_types (det dxx : float) (t : Z) :
  classify det dxx = Some t ->
  (t = TYPE_MAXIMUM \/ t = TYPE_MINIMUM \/ t = TYPE_SADDLE)
  /\ is_nan (f2d det) = false.
Proof.
  unfold classify.
  destruct (gt (f2d det) zero) eqn:G.
  - assert (Hn : is_nan (f2d det) = false) by (apply (lt_not_nan _ _ G)).
    destruct (lt (f2d dxx) zero); simpl; [intros [= <-]; auto|].
    destruct (gt (f2d dxx) zero); simpl; [intros [= <-]; auto|].
    destruct (lt (f2d det) zero); [intros [= <-]; auto|discriminate].
  - simpl. destruct (lt (f2d det) zero) eqn:L; [|discriminate].
    intros [= <-]. split; [auto|]. apply (lt_not_nan _ _ L).
Qed.

Lemma wrap_int32_le (z : Z) : 0 <= z -> wrap_int32 z <= z.
Proof.
  intros Hz. unfold wrap_int32.
  assert (H : (z + 2 ^ 31) mod 2 ^ 32 <= z + 2 ^ 31) by (apply Z.mod_le; lia).
  lia.
Qed.

(** C10.  Every keypoint [detectKeypoints] returns carries type 1, -1 or 0,
    never the default invalid type -2; its grid coordinates satisfy
    [1 <= u <= width - 2] and [1 <= v <= height - 2]; and they index a free
    cell whose distance value is not below the minimum-distance threshold,
    hence at least the threshold whenever the threshold is a number. *)
Theorem detectKeypoints_output ext self map distMap kp :
  0 <= info_width map -> 0 <= info_height map ->
  In kp (detectKeypoints ext self map distMap) ->
  (kp_type kp = TYPE_MAXIMUM \/ kp_type kp = TYPE_MINIMUM \/ kp_type kp = TYPE_SADDLE)
  /\ kp_type kp <> TYPE_INVALID
  /\ 1 <= kp_u kp <= info_width map - 2
  /\ 1 <= kp_v kp <= info_height map - 2
  /\ vec_get (data map) (cellIndex map (kp_v kp) (kp_u kp)) = Some 0
  /\ lt (f2d (mat_at distMap (kp_v kp) (kp_u kp))) (keypointsMinDistFromMap_ self)
     = false
  /\ (is_nan (keypointsMinDistFromMap_ self) = false ->
      le (keypointsMinDistFromMap_ self)
         (f2d (mat_at distMap (kp_v kp) (kp_u kp))) = true).
Proof.
  intros HW HH Hin.
  apply in_detectKeypoints in Hin as [Hint Ht].
  unfold interior in Hint.
  apply andb_prop in Hint as [Hint Hv2]. apply andb_prop in Hint as [Hint Hv1].
  apply andb_prop in Hint as [Hu1 Hu2].
  apply Z.leb_le in Hu1, Hv1. apply Z.ltb_lt in Hu2, Hv2.
  pose proof (wrap_int32_le _ HW). pose proof (wrap_int32_le _ HH).
  unfold detect_type in Ht.
  destruct (cell_skipped self map distMap (kp_u kp) (kp_v kp)) eqn:Hskip;
    [discriminate Ht|].
  destruct (gradient_flat self distMap (kp_u kp) (kp_v kp)); [|discriminate Ht].
  apply classify_types in Ht as [Htype Hnan].
  unfold cell_skipped in Hskip. apply orb_false_elim in Hskip as [Hfree Hdist].
  apply negb_false_iff in Hfree.
  destruct (vec_get (data map) (cellIndex map (kp_v kp) (kp_u kp))) as [c|] eqn:Hc;
    [|discriminate Hfree].
  apply Z.eqb_eq in Hfree. subst c.
  repeat split; try lia; trivial.
  - unfold TYPE_INVALID, TYPE_MAXIMUM, TYPE_MINIMUM, TYPE_SADDLE in *. lia.
  - intros Hth. apply not_lt_le; trivial.
    apply hess_det_centre, Hnan.
Qed.

Lemma detectKeypoints_output_witness :
  let kp := mkKeypoint 1 1 (dbl 1 0) (dbl 1 0) TYPE_MAXIMUM in
  In kp (detectKeypoints ext_axis node_default grid3 field3)
  /\ 1 <= kp_u kp <= info_width grid3 - 2
  /\ vec_get (data grid3) (cellIndex grid3 (kp_v kp) (kp_u kp)) = Some 0.
Proof.
  intros kp.
  assert (Hin : In kp (detectKeypoints ext_axis node_default grid3 field3))
    by (vm_compute; left; reflexivity).
  assert (HW : 0 <= info_width grid3) by (simpl; lia).
  assert (HH : 0 <= info_height grid3) by (simpl; lia).
  destruct (detectKeypoints_output ext_axis node_default grid3 field3 kp HW HH Hin)
    as (_ & _ & Hu & _ & Hfree & _).
  split; [exact Hin|]. split; [exact Hu|exact Hfree].
Defined.

(** C9, as the code has it.  A cell contributes a keypoint only if each of
    the squared gradient components [dx * dx] and [dy * dy] is below the
    flatness threshold; a cell with a component not below the threshold
    contributes none.  The sum [dx * dx + dy * dy] is not what is tested. *)
Theorem detectKeypoints_flatness_gate ext self map distMap u v :
  let dx := grad_dx distMap v u in
  let dy := grad_dy distMap v u in
  let emitted := keypoints_at u v (detectKeypoints ext self map distMap) in
  (emitted <> [] ->
   lt (f2d (fmul dx dx)) (gradientSquareTH_ self) = true
   /\ lt (f2d (fmul dy dy)) (gradientSquareTH_ self) = true)
  /\ (lt (f2d (fmul dx dx)) (gradientSquareTH_ self) = false
      \/ lt (f2d (fmul dy dy)) (gradientSquareTH_ self) = false ->
      emitted = []).
Proof.
  intros dx dy emitted.
  assert (Hgate : gradient_flat self distMap u v = false -> emitted = []).
  { intros Hflat. subst emitted. rewrite keypoints_at_detectKeypoints.
    destruct (interior map u v); [|reflexivity].
    unfold detect_cell, detect_type. rewrite Hflat.
    destruct (cell_skipped self map distMap u v); reflexivity. }
  assert (Hflat : gradient_flat self distMap u v
                  = lt (f2d (fmul dx dx)) (gradientSquareTH_ self)
                    && lt (f2d (fmul dy dy)) (gradientSquareTH_ self))
    by reflexivity.
  split.
  - intros Hne. apply andb_true_iff. rewrite <- Hflat.
    destruct (gradient_flat self distMap u v); [reflexivity|].
    elim Hne. apply Hgate. reflexivity.
  - intros H. apply Hgate. rewrite Hflat. apply andb_false_iff. exact H.
Qed.

(** C9 as stated fails: on the 3 x 3 field the centre cell is interior and
    free, its squared gradient magnitude [1/512] is above the threshold
    [10e-4], and the detector still returns a keypoint for it. *)
Lemma detectKeypoints_flatness_counterexample :
  interior grid3 1 1 = true
  /\ vec_get (data grid3) (cellIndex grid3 1 1) = Some 0
  /\ gradient_square field3 1 1 = dbl 1 (-9)
  /\ le (gradientSquareTH_ node_default) (gradient_square field3 1 1) = true
  /\ List.map kp_type
       (keypoints_at 1 1 (detectKeypoints ext_axis node_default grid3 field3))
     = [TYPE_MAXIMUM].
Proof. vm_compute. repeat split. Qed.

(** ** The scan callback and the keyframe window *)



Lemma Subseq_nil_l {A : Type} (k : list A) : Subseq [] k.
Proof. induction k; constructor; assumption. Qed.

Lemma Subseq_firstn_l {A : Type} (l k : list A) :
  Subseq l k -> forall n, Subseq (firstn n l) k.
Proof.
  induction 1 as [|x l k _ IH|x l k _ IH]; intros n.
  - rewrite firstn_nil. constructor.
  - apply Subseq_skip, IH.
  - destruct n; simpl.
    + apply Subseq_nil_l.
    + apply Subseq_keep, IH.
Qed.

Lemma vec_resize_shrink {A : Type} (n : nat) (l : list A) (d : A) :
  (n <= length l)%nat -> vec_resize n l d = firstn n l.
Proof.
  intros H. unfold vec_resize.
  replace (n - length l)%nat with 0%nat by lia. simpl. apply app_nil_r.
Qed.

(** The guarded [resize] keeps the first [keyScansNum_] entries. *)
Lemma insert_keyframe_firstn self msg :
  insert_keyframe self msg
  = (firstn (Z.to_nat (keyScansNum_ self)) (msg :: keyScans_ self),
     firstn (Z.to_nat (keyScansNum_ self)) (odomPose_ self :: keyPoses_ self))
  \/ length (keyPoses_ self) <> length (keyScans_ self).
Proof.
  destruct (Nat.eq_dec (length (keyPoses_ self)) (length (keyScans_ self)))
    as [Hlen|Hlen]; [left|right; exact Hlen].
  unfold insert_keyframe.
  destruct (keyScansNum_ self <=? Z.of_nat (length (msg :: keyScans_ self))) eqn:E.
  - apply Z.leb_le in E.
    rewrite !vec_resize_shrink; [reflexivity| |]; simpl in *; lia.
  - apply Z.leb_gt in E.
    rewrite !firstn_all2; [reflexivity| |]; simpl in *; lia.
Qed.

Lemma while_loop_false {A : Type} (fuel : nat) (cond : A -> bool) (body : A -> A)
      (a : A) :
  cond a = false -> while_loop fuel cond body a = Some a.
Proof. intros H. destruct fuel; simpl; rewrite H; reflexivity. Qed.

(** Before any odometry and any keyframe, the displacement test fails as long
    as the thresholds are not negative. *)
Lemma displacement_at_rest fuel self :
  odomPose_ self = Pose_default -> scanCB_prevOdomPose self = Pose_default ->
  lt (keyScanIntervalDist_ self) zero = false ->
  lt (keyScanIntervalYaw_ self) zero = false ->
  displacement_exceeded fuel self = Some false.
Proof.
  intros Ho Hp Hd Hy.
  unfold displacement_exceeded, keyframe_yaw_difference, keyframe_distance, modifyYaw.
  rewrite Ho, Hp. simpl.
  rewrite while_loop_false by reflexivity. simpl.
  rewrite while_loop_false by reflexivity. simpl.
  unfold gt, lt, zero in *. rewrite Hd, Hy. reflexivity.
Qed.

Lemma bind_some {A B : Type} (m : option A) (k : A -> option B) (b : B) :
  bind m k = Some b -> exists a, m = Some a /\ k a = Some b.
Proof. destruct m as [a|]; simpl; [eauto|discriminate]. Qed.

Lemma same_keyframe_members_refl s : same_keyframe_members s s.
Proof. unfold same_keyframe_members. tauto. Qed.

Lemma same_keyframe_members_trans s1 s2 s3 :
  same_keyframe_members s1 s2 -> same_keyframe_members s2 s3 ->
  same_keyframe_members s1 s3.
Proof.
  unfold same_keyframe_members. intros H1 H2.
  decompose [and] H1. decompose [and] H2. repeat split; congruence.
Qed.

Lemma detectKeypoints_setYaw_frame ext fuel s map s' :
  detectKeypoints_setYaw ext fuel s map = Some s' -> same_keyframe_members s s'.
Proof.
  unfold detectKeypoints_setYaw. intros H.
  apply bind_some in H as [o [_ H]]. injection H as <-.
  unfold same_keyframe_members. simpl. tauto.
Qed.

(** [mapCB] and the matching cycle leave the keyframe bookkeeping alone. *)
Lemma mapCB_frame ext pipe fuel s msg s' pubs :
  mapCB ext pipe fuel s msg = Some (s', pubs) -> same_keyframe_members s s'.
Proof.
  unfold mapCB. intros H.
  apply bind_some in H as [s1 [H1 H]].
  apply bind_some in H as [s2 [H2 H]].
  apply bind_some in H as [fs [_ H]]. injection H as <- _.
  unfold setMapInfo in H1. apply bind_some in H1 as [o [_ H1]]. injection H1 as <-.
  apply detectKeypoints_setYaw_frame in H2.
  unfold same_keyframe_members in *. simpl in *. exact H2.
Qed.

Lemma matching_cycle_frame ext pipe fuel s msg s' pubs :
  matching_cycle ext pipe fuel s msg = Some (s', pubs) ->
  same_keyframe_members s s'.
Proof.
  unfold matching_cycle. intros H.
  apply bind_some in H as [s1 [H1 H]].
  apply bind_some in H as [fs [_ H]].
  destruct (generatePoses _ _ _ _ _ _) as [poses seed].
  injection H as <- _.
  apply detectKeypoints_setYaw_frame in H1.
  unfold same_keyframe_members in *. simpl in *. exact H1.
Qed.

Lemma Pose_setPose_some fuel p q :
  Pose_setPose fuel p = Some q ->
  exists y, modifyYaw fuel (pose_yaw p) = Some y
            /\ q = mkPose (pose_x p) (pose_y p) y.
Proof.
  unfold Pose_setPose. intros H. apply bind_some in H as [y [Hy H]].
  injection H as <-. eauto.
Qed.

(** What a call of [scanCB] does to the keyframe bookkeeping: nothing, or the
    first keyframe is appended to the empty-or-not window, or a keyframe is
    inserted at the front and the window cut to [keyScansNum_] entries. *)
Lemma scanCB_window ext pipe fuel s msg s' pubs :
  length (keyPoses_ s) = length (keyScans_ s) ->
  scanCB ext pipe fuel s msg = Some (s', pubs) ->
  keyScansNum_ s' = keyScansNum_ s
  /\ keyScanIntervalDist_ s' = keyScanIntervalDist_ s
  /\ keyScanIntervalYaw_ s' = keyScanIntervalYaw_ s
  /\ odomPose_ s' = odomPose_ s
  /\ gotOdom_ s' = gotOdom_ s
  /\ ((keyScans_ s' = keyScans_ s /\ keyPoses_ s' = keyPoses_ s
       /\ scanCB_isFirst s' = scanCB_isFirst s
       /\ scanCB_prevOdomPose s' = scanCB_prevOdomPose s)
      \/ (scanCB_isFirst s = true /\ gotOdom_ s = true
          /\ keyScans_ s' = keyScans_ s ++ [msg]
          /\ keyPoses_ s' = keyPoses_ s ++ [odomPose_ s]
          /\ scanCB_isFirst s' = false
          /\ Pose_setPose fuel (odomPose_ s) = Some (scanCB_prevOdomPose s'))
      \/ (scanCB_isFirst s && gotOdom_ s = false
          /\ displacement_exceeded fuel s = Some true
          /\ keyScans_ s' = firstn (Z.to_nat (keyScansNum_ s)) (msg :: keyScans_ s)
          /\ keyPoses_ s'
             = firstn (Z.to_nat (keyScansNum_ s)) (odomPose_ s :: keyPoses_ s)
          /\ scanCB_isFirst s' = scanCB_isFirst s
          /\ Pose_setPose fuel (odomPose_ s) = Some (scanCB_prevOdomPose s'))).
Proof.
  intros Hlen. unfold scanCB.
  destruct (lt (validScanRate msg) d_0_1).
  { intros [= <- _]. repeat split; auto. }
  destruct (scanCB_isFirst s && gotOdom_ s) eqn:Hfirst.
  { intros H. apply bind_some in H as [prev [Hprev H]]. injection H as <- _.
    apply andb_prop in Hfirst as [Hf Hg]. simpl.
    repeat split; auto. right; left. repeat split; auto. }
  intros H. apply bind_some in H as [[|] [Hex H]].
  2:{ injection H as <- _. repeat split; auto. }
  destruct (insert_keyframe_firstn s msg) as [Hins|Hbad]; [|contradiction].
  rewrite Hins in H.
  apply bind_some in H as [prev [Hprev H]].
  match type of H with
  | (if _ then matching_cycle _ _ _ ?st _ else _) = _ => set (s1 := st) in H
  end.
  assert (Hs1 : same_keyframe_members s1 s').
  { destruct (_ =? _) in H.
    - apply matching_cycle_frame in H. exact H.
    - injection H as <- _. apply same_keyframe_members_refl. }
  unfold same_keyframe_members in Hs1. subst s1. simpl in Hs1.
  decompose [and] Hs1. repeat split; auto.
  right; right. repeat split; try congruence.
Qed.

Lemma window_inv_transfer fuel N hist s s' :
  same_keyframe_members s s' -> window_inv fuel N hist s -> window_inv fuel N hist s'.
Proof.
  unfold same_keyframe_members, window_inv, prev_is_front.
  intros (E1 & E2 & E3 & E4 & E5 & E6 & E7 & E8 & E9).
  rewrite E1, E2, E3, E4, E5, E6, E7, E8, E9. tauto.
Qed.

Lemma window_inv_constructed fuel s :
  constructed s ->
  lt (keyScanIntervalDist_ s) zero = false ->
  lt (keyScanIntervalYaw_ s) zero = false ->
  0 <= keyScansNum_ s ->
  window_inv fuel (keyScansNum_ s) [] s.
Proof.
  intros (_ & Hodom & Hpose & Hscans & Hposes & Hfirst & Hprev) Hd Hy HN.
  unfold window_inv. rewrite Hscans, Hposes, Hfirst. simpl.
  split; [reflexivity|]. split; [exact Hd|]. split; [exact Hy|].
  split; [exact HN|]. split; [reflexivity|]. split; [constructor|].
  split; [auto|]. split; [discriminate|]. intros _. exact Hpose.
Qed.

Lemma length_firstn_same {A B : Type} (n : nat) (l : list A) (k : list B) :
  length l = length k -> length (firstn n l) = length (firstn n k).
Proof. intros H. rewrite !length_firstn, H. reflexivity. Qed.

(** One scan keeps the invariant. *)
Lemma scanCB_inv ext pipe fuel N hist s msg s' pubs :
  1 <= N ->
  window_inv fuel N hist s ->
  scanCB ext pipe fuel s msg = Some (s', pubs) ->
  window_inv fuel N (hist ++ [msg]) s'.
Proof.
  intros HN (HNs & Hd & Hy & Hbound & Hlen & Hsub & Hfirst & Hprev & Hodom) Hcb.
  destruct (scanCB_window ext pipe fuel s msg s' pubs Hlen Hcb)
    as (E1 & E2 & E3 & E4 & E5 & Hcases).
  unfold window_inv, prev_is_front in *. rewrite E1, E2, E3, E4, E5, rev_unit.
  split; [exact HNs|]. split; [exact Hd|]. split; [exact Hy|].
  destruct Hcases as [(Es & Ep & Ef & Epr)
                     |[(Hf & Hg & Es & Ep & Ef & Epr)
                      |(Hfg & Hex & Es & Ep & Ef & Epr)]].
  - rewrite Es, Ep, Ef, Epr.
    split; [exact Hbound|]. split; [exact Hlen|].
    split; [apply Subseq_skip, Hsub|].
    split; [exact Hfirst|]. split; [exact Hprev|exact Hodom].
  - destruct (Hfirst Hf) as (Hs0 & Hp0 & _).
    rewrite Es, Ep, Ef, Hs0, Hp0. simpl app.
    split; [simpl; lia|]. split; [reflexivity|].
    split; [apply Subseq_keep, Subseq_nil_l|].
    split; [discriminate|].
    split.
    + intros _. apply Pose_setPose_some in Epr as [y [Hy' Hq]].
      exists (odomPose_ s), [], y. auto.
    + intros Hg'. congruence.
  - assert (Hnf : scanCB_isFirst s = false).
    { destruct (scanCB_isFirst s) eqn:Hf; [|reflexivity]. simpl in Hfg.
      destruct (Hfirst eq_refl) as (_ & _ & Hp0).
      rewrite (displacement_at_rest fuel s (Hodom Hfg) Hp0 Hd Hy) in Hex.
      discriminate Hex. }
    rewrite Es, Ep, Ef, Hnf, HNs.
    split; [rewrite length_firstn; simpl length; lia|].
    split; [apply length_firstn_same; simpl; congruence|].
    split; [apply Subseq_firstn_l, Subseq_keep, Hsub|].
    split; [discriminate|].
    split; [|exact Hodom].
    intros _. apply Pose_setPose_some in Epr as [y [Hy' Hq]].
    destruct (Z.to_nat N) as [|k] eqn:Ek; [lia|].
    exists (odomPose_ s), (firstn k (keyPoses_ s)), y. simpl. auto.
Qed.

Lemma step_inv ext pipe fuel N hist s ev s' pubs :
  1 <= N ->
  window_inv fuel N hist s ->
  step ext pipe fuel s ev = Some (s', pubs) ->
  window_inv fuel N (hist ++ scans_of [ev]) s'.
Proof.
  intros HN Hinv. destruct ev as [msg|msg|msg]; simpl.
  - intros H. rewrite app_nil_r.
    apply (window_inv_transfer fuel N hist s s'); [|exact Hinv].
    apply (mapCB_frame ext pipe fuel s msg s' pubs H).
  - unfold odomCB. intros H. apply bind_some in H as [p [_ H]].
    injection H as <- _. rewrite app_nil_r.
    destruct Hinv as (HNs & Hd & Hy & Hbound & Hlen & Hsub & Hfirst & Hprev & _).
    unfold window_inv, prev_is_front in *. simpl.
    split; [exact HNs|]. split; [exact Hd|]. split; [exact Hy|].
    split; [exact Hbound|]. split; [exact Hlen|]. split; [exact Hsub|].
    split; [exact Hfirst|]. split; [exact Hprev|discriminate].
  - apply scanCB_inv; assumption.
Qed.

Lemma scans_of_cons ev evs : scans_of (ev :: evs) = scans_of [ev] ++ scans_of evs.
Proof. destruct ev; reflexivity. Qed.

Lemma run_inv ext pipe fuel N evs :
  1 <= N ->
  forall hist s s' pubs,
    window_inv fuel N hist s ->
    run ext pipe fuel s evs = Some (s', pubs) ->
    window_inv fuel N (hist ++ scans_of evs) s'.
Proof.
  intros HN. induction evs as [|ev evs IH]; intros hist s s' pubs Hinv Hrun.
  - simpl in Hrun. injection Hrun as <- _. simpl. rewrite app_nil_r. exact Hinv.
  - simpl in Hrun.
    apply bind_some in Hrun as [[s1 p1] [Hstep Hrun]].
    apply bind_some in Hrun as [[s2 p2] [Hrest Hrun]].
    injection Hrun as <- _. simpl fst in *.
    rewrite scans_of_cons, app_assoc.
    apply (IH _ s1 s2 p2); [|exact Hrest].
    apply (step_inv ext pipe fuel N hist s ev s1 p1); assumption.
Qed.



(** ** [Pose::modifyYaw] *)

Lemma while_loop_exit {A : Type} (fuel : nat) (cond : A -> bool) (body : A -> A)
      (a b : A) :
  while_loop fuel cond body a = Some b -> cond b = false.
Proof.
  revert a. induction fuel as [|fuel IH]; intros a; simpl;
    destruct (cond a) eqn:E; try discriminate.
  - intros [= <-]. exact E.
  - apply IH.
  - intros [= <-]. exact E.
Qed.

(** X1.  [setYaw] and [setPose] leave a yaw that already lies in [-pi, pi]
    (neither below [-M_PI] nor above [M_PI]) exactly as it is, without
    entering either loop; and whatever yaw they store is not above [M_PI]. *)
Theorem modifyYaw_in_range fuel yaw :
  (lt yaw (SFopp M_PI) = false -> gt yaw M_PI = false ->
   modifyYaw fuel yaw = Some yaw)
  /\ (forall y, modifyYaw fuel yaw = Some y -> gt y M_PI = false).
Proof.
  split.
  - intros Hlo Hhi. unfold modifyYaw.
    rewrite (while_loop_false fuel _ _ yaw Hlo). simpl.
    apply (while_loop_false fuel _ _ yaw Hhi).
  - intros y H. unfold modifyYaw in H. apply bind_some in H as [y1 [_ H]].
    apply (while_loop_exit fuel (fun y0 => gt y0 M_PI) _ y1 y H).
Qed.

(** X2.  An infinite yaw never leaves the loops of [modifyYaw]: adding or
    subtracting [2.0 * M_PI] does not change it, so no number of iterations
    suffices and [setYaw] does not return. *)
Theorem modifyYaw_infinite_diverges fuel :
  modifyYaw fuel (S754_infinity false) = None
  /\ modifyYaw fuel (S754_infinity true) = None.
Proof.
  unfold modifyYaw. split.
  - rewrite while_loop_false by reflexivity. simpl.
    induction fuel as [|fuel IH]; [reflexivity|]. simpl. exact IH.
  - assert (H : while_loop fuel (fun y => lt y (SFopp M_PI))
                           (fun y => dadd y two_pi) (S754_infinity true) = None).
    { induction fuel as [|fuel IH]; [reflexivity|]. simpl. exact IH. }
    rewrite H. reflexivity.
Qed.

(** ** More on the keypoint detector *)

(** X3.  [detectKeypoints] returns at most one keypoint per cell, and none
    for a cell on the one-cell border (or outside the grid), for a cell whose
    occupancy value is not 0, or for a cell whose distance value is below the
    minimum-distance threshold. *)
Theorem detectKeypoints_one_per_cell ext self map distMap u v :
  (length (keypoints_at u v (detectKeypoints ext self map distMap)) <= 1)%nat
  /\ (interior map u v = false ->
      keypoints_at u v (detectKeypoints ext self map distMap) = [])
  /\ (vec_get (data map) (cellIndex map v u) <> Some 0 ->
      keypoints_at u v (detectKeypoints ext self map distMap) = [])
  /\ (lt (f2d (mat_at distMap v u)) (keypointsMinDistFromMap_ self) = true ->
      keypoints_at u v (detectKeypoints ext self map distMap) = []).
Proof.
  rewrite keypoints_at_detectKeypoints.
  assert (Hskip : cell_skipped self map distMap u v = true ->
                  detect_cell ext self map distMap u v = []).
  { intros H. unfold detect_cell, detect_type. rewrite H. reflexivity. }
  split; [|split; [|split]].
  - destruct (interior map u v); [|simpl; lia].
    unfold detect_cell. destruct (detect_type self map distMap u v); [|simpl; lia].
    destruct (cell_xy ext map u v). simpl. lia.
  - intros ->. reflexivity.
  - intros Hocc. destruct (interior map u v); [|reflexivity].
    apply Hskip. unfold cell_skipped.
    destruct (vec_get (data map) (cellIndex map v u)) as [c|]; [|reflexivity].
    destruct (c =? 0) eqn:E; [|reflexivity].
    apply Z.eqb_eq in E. subst c. contradiction.
  - intros Hd. destruct (interior map u v); [|reflexivity].
    apply Hskip. unfold cell_skipped. rewrite Hd. apply orb_true_r.
Qed.

(** X4.  The classification of a cell is a function of the 3 x 3 neighbourhood
    of distance values around it, of the cell's occupancy value and of the two
    thresholds: two cells, possibly of different grids, whose neighbourhoods
    and occupancy values agree get the same result, wherever they lie. *)
Theorem detect_type_local self map map' distMap distMap' u v u' v' :
  (forall dv du, -1 <= dv <= 1 -> -1 <= du <= 1 ->
     mat_at distMap (v + dv) (u + du) = mat_at distMap' (v' + dv) (u' + du)) ->
  vec_get (data map) (cellIndex map v u) = vec_get (data map') (cellIndex map' v' u') ->
  detect_type self map distMap u v = detect_type self map' distMap' u' v'.
Proof.
  intros Hn Hocc.
  assert (Hc : mat_at distMap v u = mat_at distMap' v' u').
  { pose proof (Hn 0 0 ltac:(lia) ltac:(lia)) as H.
    rewrite !Z.add_0_r in H. exact H. }
  assert (Hdx : grad_dx distMap v u = grad_dx distMap' v' u')
    by (unfold grad_dx; rewrite !Hn by lia; reflexivity).
  assert (Hdy : grad_dy distMap v u = grad_dy distMap' v' u')
    by (unfold grad_dy; rewrite !Hn by lia; reflexivity).
  assert (Hxx : hess_dxx distMap v u = hess_dxx distMap' v' u')
    by (unfold hess_dxx; rewrite !Hn by lia; reflexivity).
  assert (Hyy : hess_dyy distMap v u = hess_dyy distMap' v' u')
    by (unfold hess_dyy; rewrite !Hn by lia; reflexivity).
  assert (Hxy : hess_dxy distMap v u = hess_dxy distMap' v' u')
    by (unfold hess_dxy; rewrite !Hn by lia; reflexivity).
  unfold detect_type, cell_skipped, gradient_flat, hess_det.
  rewrite Hocc, Hc, Hdx, Hdy, Hxx, Hyy, Hxy. reflexivity.
Qed.

Lemma detect_type_local_witness :
  detect_type node_default grid3 field3 1 1 = Some TYPE_MAXIMUM
  /\ detect_type node_default grid4 field4 2 1 = Some TYPE_MAXIMUM.
Proof.
  assert (H1 : detect_type node_default grid3 field3 1 1 = Some TYPE_MAXIMUM)
    by (vm_compute; reflexivity).
  split; [exact H1|]. rewrite <- H1. symmetry.
  apply (detect_type_local node_default grid3 grid4 field3 field4 1 1 2 1).
  - intros dv du Hdv Hdu.
    assert (Ev : dv = -1 \/ dv = 0 \/ dv = 1) by lia.
    assert (Eu : du = -1 \/ du = 0 \/ du = 1) by lia.
    destruct Ev as [->|[->| ->]]; destruct Eu as [->|[->| ->]]; reflexivity.
  - reflexivity.
Defined.

(** ** The feature descriptor *)

Lemma vec_incr_length (l : list Z) (i : nat) : length (vec_incr l i) = length l.
Proof.
  revert i. induction l as [|x l IH]; intros [|i]; simpl; auto.
Qed.

Lemma relative_hist_length fuel dom ts hist r :
  relative_hist fuel dom ts hist = Some r -> length r = length hist.
Proof.
  revert hist. induction ts as [|t ts IH]; intros hist; simpl.
  - intros [= <-]. reflexivity.
  - intros H. apply bind_some in H as [dt [_ H]].
    apply IH in H. rewrite H.
    destruct (_ && _); [apply vec_incr_length|reflexivity].
Qed.

Lemma feature_of_bins ext fuel self distMap kp f :
  feature_of ext fuel self distMap kp = Some f ->
  length (relativeOrientationHist_ f) = 17%nat.
Proof.
  unfold feature_of.
  generalize (fold_left (window_step ext distMap)
                (window_cells (kp_u kp) (kp_v kp) (window_radius self))
                WindowAcc_init).
  intros acc H. apply bind_some in H as [r [Hr H]].
  apply relative_hist_length in Hr.
  generalize dependent (dominant_orientation (orientHist acc)).
  generalize (fdiv (distSum acc) (i2f (cellNum acc))).
  intros ave dom H. injection H as <-. simpl. rewrite Hr. reflexivity.
Qed.



Lemma window_fold_invalid ext distMap cells acc :
  Forall (fun c => window_cell_valid distMap (fst c) (snd c) = false) cells ->
  fold_left (window_step ext distMap) cells acc = acc.
Proof.
  revert acc. induction cells as [|[u v] cells IH]; intros acc Hall; [reflexivity|].
  inversion Hall as [|? ? Hc Hrest]; subst. simpl in Hc.
  change (fold_left (window_step ext distMap) ((u, v) :: cells) acc)
    with (fold_left (window_step ext distMap) cells
                    (window_step ext distMap acc (u, v))).
  assert (Hstep : window_step ext distMap acc (u, v) = acc)
    by (unfold window_step; rewrite Hc; reflexivity).
  rewrite Hstep. apply IH, Hrest.
Qed.

(** X6.  For a keypoint whose window holds no cell that passes the border
    test, the feature is computed all the same: the division [distSum /
    (float)cellNum] is the unguarded 0 / 0, so the average is a NaN, while the
    dominant orientation is 0 and the 17 bins are all 0; no loop on floats is
    entered, so the result does not depend on the iteration bound. *)
Theorem feature_of_empty_window ext fuel self distMap kp :
  Forall (fun c => window_cell_valid distMap (fst c) (snd c) = false)
         (window_cells (kp_u kp) (kp_v kp) (window_radius self)) ->
  feature_of ext fuel self distMap kp
  = Some (mkFeature zero S754_nan (repeat 0 17)).
Proof.
  intros Hall. unfold feature_of.
  rewrite (window_fold_invalid ext distMap _ WindowAcc_init Hall).
  reflexivity.
Qed.

Lemma feature_of_empty_window_witness :
  valid_cell_count ext_axis node_mapped field3 (mkKeypoint 10 10 zero zero 1) = 0
  /\ feature_of ext_axis 0 node_mapped field3 (mkKeypoint 10 10 zero zero 1)
     = Some (mkFeature zero S754_nan (repeat 0 17)).
Proof.
  split; [vm_compute; reflexivity|].
  apply (feature_of_empty_window ext_axis 0 node_mapped field3).
  vm_compute. repeat constructor.
Defined.

Lemma window_fold_count ext distMap cells acc :
  cellNum (fold_left (window_step ext distMap) cells acc)
  = cellNum acc
    + Z.of_nat (length (filter (fun c => window_cell_valid distMap (fst c) (snd c))
                               cells)).
Proof.
  revert acc. induction cells as [|[u v] cells IH]; intros acc; simpl; [lia|].
  rewrite IH. unfold window_step.
  destruct (window_cell_valid distMap u v); simpl; lia.
Qed.

Lemma in_window_cells uo vo r u v :
  In (u, v) (window_cells uo vo r) <-> uo - r <= u <= uo + r /\ vo - r <= v <= vo + r.
Proof.
  unfold window_cells. rewrite in_flat_map. split.
  - intros [u' [Hu Hin]]. apply in_map_iff in Hin as [v' [[= -> ->] Hv]].
    apply in_zrange in Hu, Hv. lia.
  - intros [Hu Hv]. exists u. split; [apply in_zrange; lia|].
    apply in_map_iff. exists v. split; [reflexivity|apply in_zrange; lia].
Qed.

(** X7.  In the pipeline the division by [cellNum] is never by zero: for a
    keypoint returned by [detectKeypoints], a distance field of the grid's
    size and a window radius that is not negative, the window contains at
    least the keypoint's own cell. *)
Theorem detected_keypoint_window_nonempty ext self map distMap kp :
  0 <= window_radius self ->
  0 <= info_width map -> 0 <= info_height map ->
  cols distMap = info_width map -> rows distMap = info_height map ->
  In kp (detectKeypoints ext self map distMap) ->
  1 <= valid_cell_count ext self distMap kp.
Proof.
  intros Hr HW HH Hcols Hrows Hin.
  destruct (detectKeypoints_output ext self map distMap kp HW HH Hin)
    as (_ & _ & Hu & Hv & _).
  unfold valid_cell_count. rewrite window_fold_count. simpl cellNum.
  set (valid := fun c : Z * Z => window_cell_valid distMap (fst c) (snd c)).
  assert (Hmem : In (kp_u kp, kp_v kp)
                    (filter valid (window_cells (kp_u kp) (kp_v kp) (window_radius self)))).
  { apply filter_In. split.
    - apply in_window_cells. lia.
    - unfold valid, window_cell_valid. simpl. rewrite Hcols, Hrows.
      apply negb_true_iff. repeat (apply orb_false_intro); apply Z.ltb_ge; lia. }
  destruct (filter valid _) as [|c l]; [contradiction|]. simpl length. lia.
Qed.

Lemma detected_keypoint_window_nonempty_witness :
  let kp := mkKeypoint 1 1 (dbl 1 0) (dbl 1 0) TYPE_MAXIMUM in
  In kp (detectKeypoints ext_axis node_mapped grid3 field3)
  /\ 1 <= valid_cell_count ext_axis node_mapped field3 kp.
Proof.
  intros kp.
  assert (Hin : In kp (detectKeypoints ext_axis node_mapped grid3 field3))
    by (vm_compute; left; reflexivity).
  split; [exact Hin|].
  assert (Hr : 0 <= window_radius node_mapped) by (vm_compute; discriminate).
  assert (HW : 0 <= info_width grid3) by (vm_compute; discriminate).
  assert (HH : 0 <= info_height grid3) by (vm_compute; discriminate).
  exact (detected_keypoint_window_nonempty ext_axis node_mapped grid3 field3 kp
           Hr HW HH eq_refl eq_refl Hin).
Defined.

Lemma zrange_snoc (lo : Z) (n : nat) :
  zrange lo (lo + Z.of_nat (S n)) = zrange lo (lo + Z.of_nat n) ++ [lo + Z.of_nat n].
Proof.
  unfold zrange.
  replace (Z.to_nat (lo + Z.of_nat (S n) - lo)) with (S n) by lia.
  replace (Z.to_nat (lo + Z.of_nat n - lo)) with n by lia.
  rewrite seq_S, map_app. reflexivity.
Qed.

(** The state of the mode loop after the bins [0 .. k-1]: it holds the first
    bin [i] that attains the maximum so far. *)
Lemma dominant_loop_inv (hist : list Z) (k : nat) :
  exists i,
    (i <= k)%nat
    /\ fold_left
         (fun (st : Z * double) (j : Z) =>
            if fst st <? nth (Z.to_nat j) hist 0
            then (nth (Z.to_nat j) hist 0, dmul (i2d j) d_ten)
            else st)
         (zrange 1 (1 + Z.of_nat k)) (nth 0 hist 0, zero)
       = (nth i hist 0, dmul (i2d (Z.of_nat i)) d_ten)
    /\ (forall i', (i' < i)%nat -> nth i' hist 0 < nth i hist 0)
    /\ (forall i', (i' <= k)%nat -> nth i' hist 0 <= nth i hist 0).
Proof.
  induction k as [|k IH].
  - exists 0%nat. split; [lia|]. split; [reflexivity|]. split.
    + intros i' Hi'. lia.
    + intros i' Hi'. replace i' with 0%nat by lia. lia.
  - destruct IH as (i & Hik & Hfold & Hfirst & Hmax).
    rewrite zrange_snoc, fold_left_app, Hfold. cbn [fold_left fst].
    replace (Z.to_nat (1 + Z.of_nat k)) with (S k) by lia.
    replace (1 + Z.of_nat k) with (Z.of_nat (S k)) by lia.
    destruct (nth i hist 0 <? nth (S k) hist 0) eqn:E.
    + apply Z.ltb_lt in E. exists (S k). split; [lia|]. split; [reflexivity|]. split.
      * intros i' Hi'. specialize (Hmax i' ltac:(lia)). lia.
      * intros i' Hi'. destruct (Nat.eq_dec i' (S k)) as [->|Hne]; [lia|].
        specialize (Hmax i' ltac:(lia)). lia.
    + apply Z.ltb_ge in E. exists i. split; [lia|]. split; [reflexivity|].
      split; [exact Hfirst|].
      intros i' Hi'. destruct (Nat.eq_dec i' (S k)) as [->|Hne]; [lia|].
      apply Hmax. lia.
Qed.

(** X8.  The dominant orientation is the lower edge, in degrees, of the first
    bin that holds the largest count: a tie between bins goes to the bin with
    the smaller index. *)
Theorem dominant_orientation_first_max (hist : list Z) :
  hist <> [] ->
  exists i,
    (i < length hist)%nat
    /\ dominant_orientation hist = dmul (i2d (Z.of_nat i)) d_ten
    /\ (forall i', (i' < i)%nat -> nth i' hist 0 < nth i hist 0)
    /\ (forall i', (i' < length hist)%nat -> nth i' hist 0 <= nth i hist 0).
Proof.
  intros Hne.
  assert (Hlen : exists k, length hist = S k)
    by (destruct hist; [contradiction|eexists; reflexivity]).
  destruct Hlen as [k Hk].
  destruct (dominant_loop_inv hist k) as (i & Hik & Hfold & Hfirst & Hmax).
  exists i. split; [lia|]. split.
  - unfold dominant_orientation. rewrite Hk.
    replace (Z.of_nat (S k)) with (1 + Z.of_nat k) by lia.
    rewrite Hfold. reflexivity.
  - split; [exact Hfirst|]. intros i' Hi'. apply Hmax. lia.
Qed.

Lemma dominant_orientation_first_max_witness :
  exists i,
    (i < 3)%nat
    /\ dominant_orientation [1; 3; 3] = dmul (i2d (Z.of_nat i)) d_ten
    /\ (forall i', (i' < i)%nat -> nth i' [1; 3; 3] 0 < nth i [1; 3; 3] 0)
    /\ (forall i', (i' < 3)%nat -> nth i' [1; 3; 3] 0 <= nth i [1; 3; 3] 0).
Proof.
  apply (dominant_orientation_first_max [1; 3; 3]). discriminate.
Defined.

(** ** The correspondence matcher *)

Lemma hist_l1_fold_nonneg (h1 h2 : list Z) (ks : list Z) (s0 : Z) :
  s0 <= fold_left (fun sum k => sum + Z.abs (nth (Z.to_nat k) h1 0 - nth (Z.to_nat k) h2 0))
                  ks s0.
Proof.
  revert s0. induction ks as [|k ks IH]; intros s0; simpl; [lia|].
  specialize (IH (s0 + Z.abs (nth (Z.to_nat k) h1 0 - nth (Z.to_nat k) h2 0))). lia.
Qed.

Lemma hist_l1_nonneg (h1 h2 : list Z) : 0 <= hist_l1 h1 h2.
Proof. unfold hist_l1. apply hist_l1_fold_nonneg. Qed.

(** The loop over all global indices is the loop over the considered ones. *)
Lemma match_scan_fold self kp f :
  match_scan self kp f = match_fold (considered_scores self kp f) MatchAcc_init.
Proof.
  unfold match_scan, considered_scores, match_fold.
  generalize MatchAcc_init.
  induction (zrange 0 (Z.of_nat (length (sdfKeypoints_ self)))) as [|j js IH];
    intros acc; [reflexivity|].
  simpl. unfold match_step at 2.
  destruct (considered self (kp_type kp) (averageSDF_ f) j); simpl; apply IH.
Qed.

Lemma considered_scores_spec self kp f j sc :
  In (j, sc) (considered_scores self kp f) ->
  0 <= j < Z.of_nat (length (sdfKeypoints_ self))
  /\ considered self (kp_type kp) (averageSDF_ f) j = true
  /\ sc = score self (relativeOrientationHist_ f) j
  /\ 0 <= sc.
Proof.
  unfold considered_scores. intros H.
  apply in_map_iff in H as [j' [[= -> <-] Hj]].
  apply filter_In in Hj as [Hr Hc]. apply in_zrange in Hr.
  repeat split; try lia; trivial. apply hist_l1_nonneg.
Qed.

Lemma match_fold_state (cands : list (Z * Z)) :
  match_state cands (match_fold cands MatchAcc_init).
Proof.
  induction cands as [|c cands IH] using rev_ind; [reflexivity|].
  unfold match_fold in *. rewrite fold_left_app. simpl fold_left.
  set (acc := fold_left _ cands MatchAcc_init) in *.
  destruct cands as [|c1 [|c2 rest]].
  - simpl in *. subst acc. reflexivity.
  - simpl in IH. rewrite IH. simpl. unfold match_update. simpl.
    destruct (snd c1 <? snd c) eqn:E; simpl.
    + apply Z.ltb_lt in E. repeat split; auto.
      * left. destruct c1; reflexivity.
      * repeat constructor; lia.
      * right; left. destruct c; reflexivity.
      * lia.
    + apply Z.ltb_ge in E. repeat split; auto.
      * right; left. destruct c; reflexivity.
      * repeat constructor; lia.
      * left. destruct c1; reflexivity.
  - destruct IH as (Hf & Hs & H1 & Hall & H2 & Hle).
    assert (Hshape : exists d1 d2 tl, (c1 :: c2 :: rest) ++ [c] = d1 :: d2 :: tl)
      by (simpl; eauto).
    destruct Hshape as (d1 & d2 & tl & Hshape).
    unfold match_state. rewrite Hshape. rewrite <- Hshape. clear Hshape d1 d2 tl.
    unfold match_update. rewrite Hf, Hs.
    destruct (snd c <? min1 acc) eqn:E;
      cbn [isFirst isSecond idx1 idx2 min1 min2].
    + apply Z.ltb_lt in E. repeat split; auto.
      * apply in_or_app. right. left. destruct c; reflexivity.
      * apply Forall_app. split.
        -- eapply Forall_impl; [|exact Hall]. simpl. intros ? ?. lia.
        -- repeat constructor. lia.
      * apply in_or_app. left. exact H1.
      * lia.
    + apply Z.ltb_ge in E. repeat split; auto.
      * apply in_or_app. left. exact H1.
      * apply Forall_app. split; [exact Hall|]. repeat constructor. exact E.
      * apply in_or_app. left. exact H2.
Qed.

Lemma nth_map_zrange {A : Type} (g : Z -> A) (n : nat) (i : Z) (d : A) :
  0 <= i < Z.of_nat n ->
  nth (Z.to_nat i) (List.map g (zrange 0 (Z.of_nat n))) d = g i.
Proof.
  intros Hi. unfold zrange. rewrite map_map.
  replace (Z.to_nat (Z.of_nat n - 0)) with n by lia.
  rewrite (nth_indep _ d (g (0 + Z.of_nat 0))) by (rewrite length_map, length_seq; lia).
  rewrite (map_nth (fun k => g (0 + Z.of_nat k)) (seq 0 n) 0%nat).
  rewrite seq_nth by lia. f_equal. lia.
Qed.

Lemma match_result_cases (acc : MatchAcc) :
  match_result acc = -1 \/ (match_result acc = idx1 acc /\ 0 <= min1 acc).
Proof.
  unfold match_result.
  destruct (0 <=? min1 acc) eqn:E; simpl.
  - apply Z.leb_le in E.
    destruct (_ && _); [right; auto|].
    destruct (min2 acc <? 0); [right; auto|left; reflexivity].
  - left. reflexivity.
Qed.

Lemma find_one_sound self kp f :
  find_one self kp f = -1
  \/ exists sc, In (find_one self kp f, sc) (considered_scores self kp f).
Proof.
  unfold find_one. rewrite match_scan_fold.
  pose proof (match_fold_state (considered_scores self kp f)) as Hst.
  destruct (match_result_cases (match_fold (considered_scores self kp f) MatchAcc_init))
    as [H|[H Hmin]]; [left; exact H|right].
  rewrite H. destruct (considered_scores self kp f) as [|c1 [|c2 rest]].
  - unfold match_fold in Hmin. simpl in Hmin. lia.
  - unfold match_fold. simpl. exists (snd c1). left. destruct c1; reflexivity.
  - destruct Hst as (_ & _ & H1 & _). eexists. exact H1.
Qed.








(** ** The matching-rate verification *)

Lemma verification_scan_last self l s :
  keyScans_ self = l ++ [s] -> verification_scan self = s.
Proof.
  intros H. unfold verification_scan, vec_get. rewrite H, length_app. simpl length.
  replace (Z.of_nat (length l + 1) - 1 <? 0) with false
    by (symmetry; apply Z.ltb_ge; lia).
  replace (Z.to_nat (Z.of_nat (length l + 1) - 1)) with (length l) by lia.
  rewrite nth_error_app2 by lia. rewrite Nat.sub_diag. reflexivity.
Qed.



Lemma count_beams_fold ext self sx sy syaw scan (l : list (Z * float)) (cnt : Z * Z) :
  let r := fold_left
             (fun (cnt : Z * Z) (ir : Z * float) =>
                let '(i, rf) := ir in
                let r := f2d rf in
                if beam_valid self scan r then
                  (fst cnt + 1,
                   if beam_matches ext self sx sy syaw scan i r
                   then snd cnt + 1 else snd cnt)
                else cnt) l cnt in
  fst r = fst cnt
          + Z.of_nat (length (filter (fun ir => beam_valid self scan (f2d (snd ir))) l))
  /\ snd cnt <= snd r <= snd cnt + (fst r - fst cnt).
Proof.
  revert cnt. induction l as [|[i rf] l IH]; intros cnt; simpl; [lia|].
  destruct (beam_valid self scan (f2d rf)).
  - match goal with
    | |- context [fold_left _ l ?c] => specialize (IH c)
    end.
    simpl in IH. destruct IH as [IH1 IH2]. simpl length.
    destruct (beam_matches ext self sx sy syaw scan i (f2d rf)); simpl in *; lia.
  - apply IH.
Qed.

Lemma filter_combine_snd {A B : Type} (p : B -> bool) (l1 : list A) (l2 : list B) :
  length l1 = length l2 ->
  length (filter (fun ab => p (snd ab)) (combine l1 l2)) = length (filter p l2).
Proof.
  revert l2. induction l1 as [|a l1 IH]; intros [|b l2] H; simpl in *;
    try discriminate; [reflexivity|].
  injection H as H. destruct (p b); simpl; rewrite IH; auto.
Qed.

Lemma length_zrange (lo hi : Z) : length (zrange lo hi) = Z.to_nat (hi - lo).
Proof. unfold zrange. rewrite length_map, length_seq. reflexivity. Qed.


Lemma filter_all_false {A : Type} (p : A -> bool) (l : list A) :
  Forall (fun x => p x = false) l -> filter p l = [].
Proof.
  induction 1 as [|x l Hx _ IH]; [reflexivity|]. simpl. rewrite Hx. exact IH.
Qed.



(** ** The pose generator *)



Lemma random_samples_length ext self base js seed :
  (length (fst (random_samples ext self base js seed)) <= length js)%nat
  /\ (gt (matchingRateTH_ self) zero = false ->
      length (fst (random_samples ext self base js seed)) = length js).
Proof.
  revert seed. induction js as [|j js IH]; intros seed; simpl; [auto|].
  destruct (nrand ext (positionalRandomNoise_ self) seed) as [nx seed1].
  destruct (nrand ext (positionalRandomNoise_ self) seed1) as [ny seed2].
  destruct (nrand ext (angularRandomNoise_ self) seed2) as [na seed3].
  specialize (IH seed3).
  destruct (random_samples ext self base js seed3) as [rest seed'].
  simpl in *. destruct IH as [IH1 IH2]. split.
  - destruct (verification_rejects ext self _); simpl; lia.
  - intros Hth. unfold verification_rejects. rewrite Hth. simpl.
    rewrite (IH2 Hth). reflexivity.
Qed.

Lemma sample_and_verify_length ext self base seed :
  (length (fst (sample_and_verify ext self base seed)) <= samples_per_candidate self)%nat
  /\ (gt (matchingRateTH_ self) zero = false ->
      length (fst (sample_and_verify ext self base seed)) = samples_per_candidate self).
Proof.
  unfold sample_and_verify, samples_per_candidate.
  destruct (addRandomSamples_ self); simpl.
  - pose proof (random_samples_length ext self base
                  (zrange 0 (randomSamplesNum_ self)) seed) as H.
    rewrite length_zrange, Z.sub_0_r in H. exact H.
  - split.
    + destruct (verification_rejects ext self base); simpl; lia.
    + intros Hth. unfold verification_rejects. rewrite Hth. reflexivity.
Qed.

Lemma generate_one_length ext self odom kp f idx seed :
  (length (fst (generate_one ext self odom kp f idx seed))
   <= if (0 <=? idx)%Z then samples_per_candidate self else 0)%nat.
Proof.
  unfold generate_one. destruct (idx <? 0) eqn:E.
  - apply Z.ltb_lt in E. simpl. lia.
  - apply Z.ltb_ge in E. replace (0 <=? idx) with true by (symmetry; apply Z.leb_le; lia).
    destruct (xy2uv _ _ _ _) as [u v].
    destruct (cell_rejected self u v); [simpl; lia|].
    apply sample_and_verify_length.
Qed.

Lemma generate_loop_length ext self odom kps feats indexed seed :
  (length (fst (generate_loop ext self odom kps feats indexed seed))
   <= length (filter (fun p => (0 <=? snd p)%Z) indexed) * samples_per_candidate self)%nat.
Proof.
  revert seed. induction indexed as [|[i idx] rest IH]; intros seed; simpl; [lia|].
  pose proof (generate_one_length ext self odom
                (nth (Z.to_nat i) kps Keypoint_default)
                (nth (Z.to_nat i) feats Feature_default) idx seed) as H1.
  destruct (generate_one ext self odom _ _ idx seed) as [ps seed1].
  specialize (IH seed1).
  destruct (generate_loop ext self odom kps feats rest seed1) as [qs seed2].
  simpl in *. rewrite length_app.
  destruct (0 <=? idx); simpl; lia.
Qed.

Lemma generate_loop_no_match ext self odom kps feats indexed seed :
  Forall (fun p => snd p < 0) indexed ->
  generate_loop ext self odom kps feats indexed seed = ([], seed).
Proof.
  induction 1 as [|[i idx] rest Hidx _ IH]; [reflexivity|]. simpl in *.
  unfold generate_one. replace (idx <? 0) with true by (symmetry; apply Z.ltb_lt; lia).
  rewrite IH. reflexivity.
Qed.


(** ** More on the scan callback *)



Lemma detectKeypoints_setYaw_globals ext fuel s map s' :
  detectKeypoints_setYaw ext fuel s map = Some s' ->
  sdfKeypoints_ s' = sdfKeypoints_ s
  /\ sdfOrientationFeatures_ s' = sdfOrientationFeatures_ s
  /\ rand_seed s' = rand_seed s
  /\ keyScansNum_ s' = keyScansNum_ s.
Proof.
  unfold detectKeypoints_setYaw. intros H.
  apply bind_some in H as [o [_ H]]. injection H as <-. simpl. auto.
Qed.

(** The publications of a matching cycle and the members it leaves alone. *)
Lemma matching_cycle_publications ext pipe fuel s msg s' pubs :
  matching_cycle ext pipe fuel s msg = Some (s', pubs) ->
  sdfKeypoints_ s' = sdfKeypoints_ s
  /\ sdfOrientationFeatures_ s' = sdfOrientationFeatures_ s
  /\ exists poses localMap localKeypoints,
       pubs = [PubPoses (header_stamp msg) poses;
               PubLocalMap (header_stamp msg) localMap;
               PubSdfKeypoints (header_stamp msg) (sdfKeypoints_ s);
               PubLocalSdfKeypoints (header_stamp msg) localKeypoints].
Proof.
  unfold matching_cycle. intros H.
  apply bind_some in H as [s1 [H1 H]].
  apply bind_some in H as [fs [_ H]].
  destruct (generatePoses _ _ _ _ _ _) as [poses seed].
  apply detectKeypoints_setYaw_globals in H1 as (Hk & Hf & _).
  injection H as <- <-. simpl. rewrite Hk, Hf.
  split; [reflexivity|]. split; [reflexivity|]. eauto.
Qed.



(** Before the first keyframe and before any odometry, a scan changes
    nothing. *)
Lemma scanCB_before_odometry ext pipe fuel s msg :
  gotOdom_ s = false -> odomPose_ s = Pose_default ->
  scanCB_prevOdomPose s = Pose_default ->
  lt (keyScanIntervalDist_ s) zero = false ->
  lt (keyScanIntervalYaw_ s) zero = false ->
  scanCB ext pipe fuel s msg = Some (s, []).
Proof.
  intros Hg Ho Hp Hd Hy. unfold scanCB.
  destruct (lt (validScanRate msg) d_0_1); [reflexivity|].
  rewrite Hg, andb_false_r.
  rewrite (displacement_at_rest fuel s Ho Hp Hd Hy). reflexivity.
Qed.



Lemma scanCB_globals ext pipe fuel s msg s' pubs :
  scanCB ext pipe fuel s msg = Some (s', pubs) ->
  sdfKeypoints_ s' = sdfKeypoints_ s
  /\ sdfOrientationFeatures_ s' = sdfOrientationFeatures_ s.
Proof.
  unfold scanCB.
  destruct (lt (validScanRate msg) d_0_1); [intros [= <- _]; auto|].
  destruct (scanCB_isFirst s && gotOdom_ s).
  { intros H. apply bind_some in H as [prev [_ H]]. injection H as <- _. auto. }
  intros H. apply bind_some in H as [[|] [_ H]]; [|injection H as <- _; auto].
  destruct (insert_keyframe s msg) as [scans poses].
  apply bind_some in H as [prev [_ H]].
  destruct (_ =? _); [|injection H as <- _; auto].
  apply matching_cycle_publications in H as (Hk & Hf & _). simpl in Hk, Hf. auto.
Qed.





(** ** [buildLocalMap] *)

Lemma vec_set_length {A : Type} (l : list A) (n : Z) (x : A) :
  length (vec_set l n x) = length l.
Proof.
  unfold vec_set. destruct ((0 <=? n) && (n <? Z.of_nat (length l))) eqn:E;
    [|reflexivity].
  apply andb_true_iff in E. destruct E as [E1 E2].
  apply Z.leb_le in E1. apply Z.ltb_lt in E2.
  rewrite length_app. cbn [length]. rewrite length_firstn, length_skipn. lia.
Qed.

Lemma Forall_firstn_of {A : Type} (P : A -> Prop) (n : nat) : forall l,
  Forall P l -> Forall P (firstn n l).
Proof.
  induction n as [|n IH]; intros [|a l] H; simpl; try constructor.
  - inversion H; assumption.
  - apply IH. inversion H; assumption.
Qed.

Lemma Forall_skipn_of {A : Type} (P : A -> Prop) (n : nat) : forall l,
  Forall P l -> Forall P (skipn n l).
Proof.
  induction n as [|n IH]; intros [|a l] H; simpl; try assumption.
  apply IH. inversion H; assumption.
Qed.

Lemma vec_set_Forall {A : Type} (P : A -> Prop) (l : list A) (n : Z) (x : A) :
  P x -> Forall P l -> Forall P (vec_set l n x).
Proof.
  intros Hx Hl. unfold vec_set.
  destruct ((0 <=? n) && (n <? Z.of_nat (length l))); [|exact Hl].
  apply Forall_app. split.
  - apply Forall_firstn_of. exact Hl.
  - constructor; [exact Hx|]. apply Forall_skipn_of. exact Hl.
Qed.

Lemma vec_set_nth_other {A : Type} (l : list A) (n : Z) (x d : A) (m : nat) :
  m <> Z.to_nat n -> nth m (vec_set l n x) d = nth m l d.
Proof.
  intros Hm. unfold vec_set.
  destruct ((0 <=? n) && (n <? Z.of_nat (length l))) eqn:E; [|reflexivity].
  apply andb_true_iff in E. destruct E as [E1 E2].
  apply Z.leb_le in E1. apply Z.ltb_lt in E2.
  rewrite <- (firstn_skipn (Z.to_nat n) l) at 3.
  assert (Hlen : length (firstn (Z.to_nat n) l) = Z.to_nat n)
    by (rewrite length_firstn; lia).
  destruct (Nat.lt_ge_cases m (Z.to_nat n)) as [Hlt|Hge].
  - rewrite !app_nth1 by (rewrite Hlen; lia). reflexivity.
  - rewrite !app_nth2 by (rewrite Hlen; lia). rewrite Hlen.
    destruct (m - Z.to_nat n)%nat as [|k] eqn:Ek; [lia|].
    simpl. 
    assert (Hs : skipn (Z.to_nat n) l = nth (Z.to_nat n) l d :: skipn (S (Z.to_nat n)) l).
    { assert (Hj : (Z.to_nat n < length l)%nat) by lia.
      clear -Hj. revert l Hj. generalize (Z.to_nat n) as j. intros j. induction j as [|j IH]; intros [|a l] Hj; simpl in *; try lia.
      - reflexivity.
      - apply IH. lia. }
    rewrite Hs. reflexivity.
Qed.

Lemma while_loop_inv {A : Type} (P : A -> Prop) (fuel : nat) (cond : A -> bool)
      (body : A -> A) :
  (forall a, P a -> cond a = true -> P (body a)) ->
  forall a b, P a -> while_loop fuel cond body a = Some b -> P b.
Proof.
  intros Hstep. induction fuel as [|fuel IH]; intros a b Ha; simpl;
    destruct (cond a) eqn:E; try discriminate.
  - intros [= <-]. exact Ha.
  - intros H. exact (IH _ _ (Hstep _ Ha E) H).
  - intros [= <-]. exact Ha.
Qed.

Lemma wrap_int32_small z : 0 <= z < 2 ^ 31 -> wrap_int32 z = z.
Proof.
  intros H. unfold wrap_int32.
  rewrite Z.mod_small; lia.
Qed.


Lemma vec_set_nth_other_Z {A : Type} (l : list A) (n k : Z) (x d : A) :
  0 <= k -> k <> n -> nth (Z.to_nat k) (vec_set l n x) d = nth (Z.to_nat k) l d.
Proof.
  intros Hk Hne. destruct (Z.ltb_spec n 0) as [Hneg|Hpos].
  - unfold vec_set. replace (0 <=? n) with false by (symmetry; apply Z.leb_gt; lia).
    reflexivity.
  - apply vec_set_nth_other. lia.
Qed.

Lemma vec_set_nth_same {A : Type} (l : list A) (n : Z) (x d : A) :
  0 <= n < Z.of_nat (length l) -> nth (Z.to_nat n) (vec_set l n x) d = x.
Proof.
  intros H. unfold vec_set.
  replace ((0 <=? n) && (n <? Z.of_nat (length l))) with true
    by (symmetry; apply andb_true_iff; split; [apply Z.leb_le|apply Z.ltb_lt]; lia).
  assert (Hlen : length (firstn (Z.to_nat n) l) = Z.to_nat n)
    by (rewrite length_firstn; lia).
  rewrite app_nth2 by (rewrite Hlen; lia).
  rewrite Hlen, Nat.sub_diag. reflexivity.
Qed.

Section LocalMapInv.
Variable ext : External.
Variable fuel : nat.
Variable self : GLPoseSampler.
Hypothesis Hsize : LocalMap.width self * LocalMap.height self < 2 ^ 31.

Let Inv := local_cells_inv (LocalMap.width self) (LocalMap.height self).

Lemma mark_inv cells x y val :
  local_cell_value val -> Inv cells -> Inv (LocalMap.mark self cells x y val).
Proof.
  intros Hval (Hlen & Hall & Hborder). unfold LocalMap.mark.
  destruct (LocalMap.cell_of self x y) as [u v].
  destruct ((0 <? u) && (u <? LocalMap.width self) && (0 <? v)
            && (v <? LocalMap.height self)) eqn:E;
    [|exact (conj Hlen (conj Hall Hborder))].
  apply andb_true_iff in E. destruct E as [E Ev2].
  apply andb_true_iff in E. destruct E as [E Ev1].
  apply andb_true_iff in E. destruct E as [Eu1 Eu2].
  apply Z.ltb_lt in Eu1, Eu2, Ev1, Ev2.
  assert (Hn : 0 <= v * LocalMap.width self + u < 2 ^ 31) by nia.
  rewrite (wrap_int32_small _ Hn).
  split; [|split].
  - rewrite vec_set_length. exact Hlen.
  - apply vec_set_Forall; assumption.
  - intros u' v' Hu' Hv' Hb. rewrite vec_set_nth_other.
    + apply Hborder; assumption.
    + intros Heq.
      assert (Hpos : 0 <= v' * LocalMap.width self + u') by nia.
      apply Z2Nat.inj in Heq; [|exact Hpos|lia].
      destruct Hb as [-> | ->].
      * assert (Hu : u = (v' - v) * LocalMap.width self) by lia.
        assert (Hd : v' - v <= 0 \/ 1 <= v' - v) by lia.
        destruct Hd; nia.
      * nia.
Qed.

Lemma trace_beam_inv cells sx sy t range cells' :
  Inv cells -> LocalMap.trace_beam ext fuel self cells sx sy t range = Some cells' ->
  Inv cells'.
Proof.
  intros Hc H. unfold LocalMap.trace_beam in H.
  apply bind_some in H. destruct H as (st & Hloop & Hend).
  injection Hend as <-.
  apply mark_inv; [right; right; reflexivity|].
  revert Hloop.
  apply (while_loop_inv (fun st => Inv (ray_data st))).
  - intros a Ha _. cbn [ray_data]. apply mark_inv; [right; left; reflexivity|exact Ha].
  - exact Hc.
Qed.

Lemma trace_beams_inv scan sx sy syaw beams : forall cells cells',
  Inv cells ->
  LocalMap.trace_beams ext fuel self scan sx sy syaw beams cells = Some cells' ->
  Inv cells'.
Proof.
  induction beams as [|[j rf] rest IH]; intros cells cells' Hc H.
  - injection H as <-. exact Hc.
  - cbn [LocalMap.trace_beams] in H.
    destruct (lt (f2d rf) (f2d (range_min scan)) || lt (f2d (range_max scan)) (f2d rf));
      [exact (IH _ _ Hc H)|].
    destruct (lt (f2d rf) (keypointsMinDistFromMap_ self)); [exact (IH _ _ Hc H)|].
    apply bind_some in H. destruct H as (c1 & Hb & Hrest).
    exact (IH _ _ (trace_beam_inv _ _ _ _ _ _ Hc Hb) Hrest).
Qed.

Lemma trace_keyframes_inv idxs : forall cells cells',
  Inv cells ->
  LocalMap.trace_keyframes ext fuel self idxs cells = Some cells' ->
  Inv cells'.
Proof.
  induction idxs as [|i rest IH]; intros cells cells' Hc H.
  - injection H as <-. exact Hc.
  - cbn [LocalMap.trace_keyframes] in H.
    apply bind_some in H. destruct H as (c1 & Hk & Hrest).
    refine (IH _ _ _ Hrest).
    unfold LocalMap.trace_keyframe in Hk.
    exact (trace_beams_inv _ _ _ _ _ _ _ Hc Hk).
Qed.

Lemma initial_cells_inv :
  Inv (repeat (-1) (Z.to_nat (to_uint32 (LocalMap.width self * LocalMap.height self)))).
Proof.
  split; [|split].
  - apply repeat_length.
  - apply Forall_forall. intros c Hc. apply repeat_spec in Hc. left. exact Hc.
  - intros u v _ _ _.
    generalize (Z.to_nat (v * LocalMap.width self + u)) as k.
    generalize (Z.to_nat (to_uint32 (LocalMap.width self * LocalMap.height self))) as n.
    induction n as [|n IH]; intros [|k]; simpl; auto.
Qed.

End LocalMapInv.



(** ** [nrand] *)

Lemma dmul_infinity_not_finite (n b : double) :
  is_finite (dmul (dmul n (S754_infinity false)) b) = false.
Proof.
  destruct n as [sn|sn| |sn mn en]; destruct b as [sb|sb| |sb mb eb];
    reflexivity.
Qed.

(** X26.  When the draw that feeds the logarithm is [0] (and [log 0] is
    [-inf], as in the C library), the noise [nrand] returns is infinite or a
    NaN, whatever the standard deviation and the second draw. *)
Theorem nrand_zero_draw (ext : External) (n : double) (seed : Z) :
  ext_log ext zero = d_minus_infinity ->
  fst (ext_rand ext seed) = 0 ->
  is_finite (fst (nrand ext n seed)) = false.
Proof.
  intros Hlog Hdraw. unfold nrand.
  destruct (ext_rand ext seed) as [r1 seed1]. cbn [fst] in Hdraw. subst r1.
  destruct (ext_rand ext seed1) as [r2 seed2]. cbn [fst].
  assert (Hzero : ddiv (i2d 0) (i2d RAND_MAX) = zero) by (vm_compute; reflexivity).
  rewrite Hzero, Hlog.
  assert (Hinf : dsqrt (dmul (SFopp d_two) d_minus_infinity) = S754_infinity false)
    by (vm_compute; reflexivity).
  rewrite Hinf. apply dmul_infinity_not_finite.
Qed.

Lemma nrand_zero_draw_witness :
  is_finite (fst (nrand ext_zero_draw (dbl 1 (-1)) 0)) = false.
Proof.
  apply (nrand_zero_draw ext_zero_draw (dbl 1 (-1)) 0);
    vm_compute; reflexivity.
Defined.

(** ** Class [Histogram] *)

Lemma val2bin_range (self : Histogram) (v : double) :
  val2bin self v = -1 \/ 0 <= val2bin self v < histogramSize_ self.
Proof.
  unfold val2bin.
  destruct ((trunc (ddiv (dsub v (minValue_ self)) (binWidth_ self)) <? 0)
            || (histogramSize_ self <=? trunc (ddiv (dsub v (minValue_ self)) (binWidth_ self))))
    eqn:E; [left; reflexivity|right].
  apply orb_false_iff in E. destruct E as [E1 E2].
  apply Z.ltb_ge in E1. apply Z.leb_gt in E2. lia.
Qed.

Lemma same_bins_val2bin s s' v : same_bins s s' -> val2bin s' v = val2bin s v.
Proof.
  intros (Hb & Hm & _ & Hs). unfold val2bin. rewrite Hb, Hm, Hs. reflexivity.
Qed.

Lemma same_bins_in_bin s s' vals k :
  same_bins s s' -> values_in_bin s' vals k = values_in_bin s vals k.
Proof.
  intros H. unfold values_in_bin. f_equal. f_equal. apply filter_ext.
  intros v. rewrite (same_bins_val2bin _ _ v H). reflexivity.
Qed.

Lemma same_bins_in_range s s' vals :
  same_bins s s' -> values_in_range s' vals = values_in_range s vals.
Proof.
  intros H. unfold values_in_range. f_equal. f_equal. apply filter_ext.
  intros v. rewrite (same_bins_val2bin _ _ v H). reflexivity.
Qed.

Lemma count_value_same_bins s v : same_bins s (count_value s v).
Proof.
  unfold count_value, same_bins. destruct (0 <=? val2bin s v); simpl; auto.
Qed.

Lemma values_in_bin_cons s v vals k :
  values_in_bin s (v :: vals) k
  = (if val2bin s v =? k then 1 else 0) + values_in_bin s vals k.
Proof.
  unfold values_in_bin. cbn [filter].
  destruct (val2bin s v =? k); cbn [length]; lia.
Qed.

Lemma values_in_range_cons s v vals :
  values_in_range s (v :: vals)
  = (if 0 <=? val2bin s v then 1 else 0) + values_in_range s vals.
Proof.
  unfold values_in_range. cbn [filter].
  destruct (0 <=? val2bin s v); cbn [length]; lia.
Qed.

Lemma values_in_bin_bounds s vals k :
  0 <= values_in_bin s vals k <= Z.of_nat (length vals).
Proof.
  unfold values_in_bin.
  pose proof (filter_length_le (fun v => val2bin s v =? k) vals). lia.
Qed.

Lemma values_in_range_bounds s vals :
  0 <= values_in_range s vals <= Z.of_nat (length vals).
Proof.
  unfold values_in_range.
  pose proof (filter_length_le (fun v => 0 <=? val2bin s v) vals). lia.
Qed.

(** The counting loop: every counter grows by the number of the values of
    its bin, as long as no counter overflows. *)
Lemma count_fold (vals : list double) : forall s,
  length (histogram_ s) = Z.to_nat (histogramSize_ s) ->
  0 <= valueNum_ s -> valueNum_ s + Z.of_nat (length vals) < 2 ^ 31 ->
  (forall k, 0 <= k < histogramSize_ s ->
     0 <= nth (Z.to_nat k) (histogram_ s) 0
     /\ nth (Z.to_nat k) (histogram_ s) 0 + Z.of_nat (length vals) < 2 ^ 31) ->
  let s' := fold_left count_value vals s in
  same_bins s s'
  /\ probability_ s' = probability_ s
  /\ length (histogram_ s') = Z.to_nat (histogramSize_ s)
  /\ valueNum_ s' = valueNum_ s + values_in_range s vals
  /\ (forall k, 0 <= k < histogramSize_ s ->
        nth (Z.to_nat k) (histogram_ s') 0
        = nth (Z.to_nat k) (histogram_ s) 0 + values_in_bin s vals k).
Proof.
  induction vals as [|v vals IH]; intros s Hlen Hn Hnb Hh.
  - cbn [fold_left]. unfold same_bins, values_in_range, values_in_bin.
    cbn [filter length].
    split; [tauto|]. split; [reflexivity|]. split; [exact Hlen|].
    split; [lia|]. intros k _. lia.
  - cbn [fold_left]. cbn [length] in Hnb, Hh.
    pose proof (count_value_same_bins s v) as Hsb.
    assert (Hsize : histogramSize_ (count_value s v) = histogramSize_ s)
      by (destruct Hsb as (_ & _ & _ & H); exact H).
    assert (Hstep :
      probability_ (count_value s v) = probability_ s
      /\ length (histogram_ (count_value s v)) = Z.to_nat (histogramSize_ s)
      /\ valueNum_ (count_value s v)
         = valueNum_ s + (if 0 <=? val2bin s v then 1 else 0)
      /\ (forall k, 0 <= k < histogramSize_ s ->
            nth (Z.to_nat k) (histogram_ (count_value s v)) 0
            = nth (Z.to_nat k) (histogram_ s) 0
              + (if val2bin s v =? k then 1 else 0))).
    { unfold count_value.
      destruct (val2bin_range s v) as [Hb|Hb].
      - rewrite Hb. cbn [Z.leb Z.compare].
        split; [reflexivity|]. split; [exact Hlen|]. split; [lia|].
        intros k Hk. replace (-1 =? k) with false by (symmetry; apply Z.eqb_neq; lia).
        lia.
      - replace (0 <=? val2bin s v) with true by (symmetry; apply Z.leb_le; lia).
        cbn [probability_ histogram_ valueNum_].
        split; [reflexivity|]. split; [rewrite vec_set_length; exact Hlen|].
        split; [apply wrap_int32_small; lia|].
        intros k Hk. destruct (Z.eqb_spec (val2bin s v) k) as [->|Hne].
        + rewrite vec_set_nth_same by lia.
          apply wrap_int32_small. specialize (Hh k Hk). lia.
        + rewrite vec_set_nth_other by lia. lia. }
    destruct Hstep as (Hp1 & Hl1 & Hv1 & Hh1).
    assert (Hone : forall b : bool, 0 <= (if b then 1 else 0) <= 1)
      by (intros []; lia).
    destruct (IH (count_value s v)) as (Hsb2 & Hp2 & Hl2 & Hv2 & Hh2).
    + rewrite Hsize. exact Hl1.
    + rewrite Hv1. pose proof (Hone (0 <=? val2bin s v)). lia.
    + rewrite Hv1. pose proof (Hone (0 <=? val2bin s v)). lia.
    + rewrite Hsize. intros k Hk. rewrite (Hh1 k Hk).
      pose proof (Hone (val2bin s v =? k)). specialize (Hh k Hk). lia.
    + rewrite Hsize in Hl2, Hh2.
      split; [|split; [|split; [|split]]].
      * destruct Hsb as (A1 & A2 & A3 & A4), Hsb2 as (B1 & B2 & B3 & B4).
        unfold same_bins. rewrite B1, B2, B3, B4. auto.
      * rewrite Hp2. exact Hp1.
      * exact Hl2.
      * rewrite Hv2, Hv1, (same_bins_in_range _ _ vals Hsb), values_in_range_cons. lia.
      * intros k Hk.
        rewrite (Hh2 k Hk), (Hh1 k Hk), (same_bins_in_bin _ _ vals k Hsb),
          values_in_bin_cons. lia.
Qed.

(** The loop that fills [probability_]. *)
Lemma fill_loop (f : Z -> double) (idxs : list Z) : forall p,
  let p' := fold_left (fun p i => vec_set p i (f i)) idxs p in
  length p' = length p
  /\ (forall k, 0 <= k < Z.of_nat (length p) ->
        nth (Z.to_nat k) p' S754_nan
        = if in_dec Z.eq_dec k idxs then f k else nth (Z.to_nat k) p S754_nan).
Proof.
  induction idxs as [|i idxs IH]; intros p; cbn [fold_left].
  - split; [reflexivity|]. intros k _. reflexivity.
  - destruct (IH (vec_set p i (f i))) as (Hl & Hn).
    rewrite vec_set_length in Hl, Hn.
    split; [exact Hl|]. intros k Hk. rewrite (Hn k Hk).
    destruct (in_dec Z.eq_dec k idxs) as [Hin|Hnin];
      destruct (in_dec Z.eq_dec k (i :: idxs)) as [Hin'|Hnin']; try reflexivity.
    + exfalso. apply Hnin'. right. exact Hin.
    + destruct Hin' as [->|Hin']; [|contradiction].
      apply vec_set_nth_same. exact Hk.
    + apply vec_set_nth_other_Z; [lia|]. intros Heq. apply Hnin'. left. lia.
Qed.

Lemma fill_probability_spec (counts : list Z) (valueNum : Z) (p : list double) :
  Z.of_nat (length counts) < 2 ^ 31 -> length p = length counts ->
  length (fill_probability counts valueNum p) = length p
  /\ (forall k, 0 <= k < Z.of_nat (length p) ->
        nth (Z.to_nat k) (fill_probability counts valueNum p) S754_nan
        = ddiv (i2d (nth (Z.to_nat k) counts 0)) (i2d valueNum)).
Proof.
  intros Hc Hp. unfold fill_probability.
  rewrite (wrap_int32_small (Z.of_nat (length counts))) by lia.
  destruct (fill_loop
              (fun i => ddiv (i2d (nth (Z.to_nat i) counts 0)) (i2d valueNum))
              (zrange 0 (Z.of_nat (length counts))) p) as (Hfl & Hfn).
  split; [exact Hfl|]. intros k Hk. rewrite (Hfn k Hk).
  destruct (in_dec Z.eq_dec k (zrange 0 (Z.of_nat (length counts)))) as [_|Hn];
    [reflexivity|].
  exfalso. apply Hn. apply in_zrange. lia.
Qed.

Lemma vec_resize_empty {A : Type} (n : nat) (d : A) : vec_resize n [] d = repeat d n.
Proof.
  unfold vec_resize. rewrite firstn_nil. cbn [app length]. rewrite Nat.sub_0_r.
  reflexivity.
Qed.

Lemma nth_repeat_same {A : Type} (d : A) (n k : nat) : nth k (repeat d n) d = d.
Proof. revert k. induction n as [|n IH]; intros [|k]; simpl; auto. Qed.

Lemma buildHistogram_spec (values : list double) (bw mn mx : double) (h : Histogram) :
  Z.of_nat (length values) < 2 ^ 31 ->
  Histogram_with_range values bw mn mx = Some h ->
  0 <= histogramSize_ h
  /\ length (histogram_ h) = Z.to_nat (histogramSize_ h)
  /\ length (probability_ h) = Z.to_nat (histogramSize_ h)
  /\ valueNum_ h = values_in_range h values
  /\ (forall k, 0 <= k < histogramSize_ h ->
        nth (Z.to_nat k) (histogram_ h) 0 = values_in_bin h values k
        /\ nth (Z.to_nat k) (probability_ h) S754_nan
           = ddiv (i2d (values_in_bin h values k)) (i2d (values_in_range h values))).
Proof.
  intros Hlen H. unfold Histogram_with_range, buildHistogram in H.
  cbn [binWidth_ minValue_ maxValue_ histogram_ probability_] in H.
  set (size := wrap_int32 (trunc (ddiv (dsub mx mn) bw) + 1)) in *.
  destruct (size <? 0) eqn:Esz; [discriminate|].
  apply Z.ltb_ge in Esz.
  assert (Hsz : size < 2 ^ 31).
  { unfold size, wrap_int32.
    pose proof (Z.mod_pos_bound (trunc (ddiv (dsub mx mn) bw) + 1 + 2 ^ 31) (2 ^ 32)).
    lia. }
  rewrite (wrap_int32_small (Z.of_nat (length values))) in H by lia.
  rewrite Nat2Z.id, firstn_all in H.
  rewrite vec_resize_empty in H.
  set (s0 := mkHistogram bw mn mx size 0 (repeat 0 (Z.to_nat size)) []) in *.
  destruct (count_fold values s0) as (Hsb & Hp & Hl & Hv & Hh).
  - apply repeat_length.
  - simpl. lia.
  - simpl. lia.
  - intros k _. cbn [histogram_ s0]. rewrite nth_repeat_same. lia.
  - set (s1 := fold_left count_value values s0) in *.
    cbn [histogramSize_ valueNum_ histogram_ probability_ s0] in Hl, Hv, Hh, Hp.
    rewrite Hp, vec_resize_empty in H.
    assert (Hs1 : histogramSize_ s1 = size) by (destruct Hsb as (_ & _ & _ & E); exact E).
    injection H as <-.
    match goal with
    | |- context [values_in_range ?hh values] => set (hfinal := hh)
    end.
    assert (Hsbh : same_bins s0 hfinal) by exact Hsb.
    rewrite (same_bins_in_range _ _ values Hsbh).
    assert (Hbins : forall k, values_in_bin hfinal values k = values_in_bin s0 values k)
      by (intros k; apply same_bins_in_bin; exact Hsbh).
    subst hfinal. cbn [histogramSize_ valueNum_ histogram_ probability_] in *.
    destruct (fill_probability_spec (histogram_ s1) (valueNum_ s1)
                (repeat zero (Z.to_nat size))) as (Hfl & Hfn).
    { rewrite Hl. lia. }
    { rewrite repeat_length, Hl. reflexivity. }
    rewrite repeat_length in Hfl, Hfn.
    split; [rewrite Hs1; exact Esz|]. split; [rewrite Hs1; exact Hl|].
    split; [rewrite Hs1; exact Hfl|]. split; [rewrite Hv; lia|].
    intros k Hk. rewrite Hs1 in Hk. rewrite (Hbins k).
    split; [rewrite (Hh k Hk), nth_repeat_same; lia|].
    rewrite Hfn by lia.
    rewrite (Hh k Hk), nth_repeat_same, Hv. reflexivity.
Qed.

(** X27.  A histogram built from fewer than [2^31] values has
    [histogramSize_] counters and as many probabilities; [valueNum_] is the
    number of the values that fall in some bin, counter [k] is the number of
    the values that fall in bin [k], and probability [k] is their quotient as
    doubles. *)
Theorem buildHistogram_counts (values : list double) (bw mn mx : double)
        (h : Histogram) :
  Z.of_nat (length values) < 2 ^ 31 ->
  Histogram_with_range values bw mn mx = Some h ->
  0 <= histogramSize_ h
  /\ length (histogram_ h) = Z.to_nat (histogramSize_ h)
  /\ length (probability_ h) = Z.to_nat (histogramSize_ h)
  /\ valueNum_ h = values_in_range h values
  /\ (forall k, 0 <= k < histogramSize_ h ->
        nth (Z.to_nat k) (histogram_ h) 0 = values_in_bin h values k
        /\ nth (Z.to_nat k) (probability_ h) S754_nan
           = ddiv (i2d (values_in_bin h values k)) (i2d (values_in_range h values))).
Proof. exact (buildHistogram_spec values bw mn mx h). Qed.

Lemma buildHistogram_counts_witness :
  Histogram_with_range values_four (dbl 1 0) zero (dbl 2 0) = Some histogram_four
  /\ 0 <= histogramSize_ histogram_four
  /\ length (histogram_ histogram_four) = Z.to_nat (histogramSize_ histogram_four)
  /\ length (probability_ histogram_four) = Z.to_nat (histogramSize_ histogram_four)
  /\ valueNum_ histogram_four = values_in_range histogram_four values_four
  /\ (forall k, 0 <= k < histogramSize_ histogram_four ->
        nth (Z.to_nat k) (histogram_ histogram_four) 0
        = values_in_bin histogram_four values_four k
        /\ nth (Z.to_nat k) (probability_ histogram_four) S754_nan
           = ddiv (i2d (values_in_bin histogram_four values_four k))
                  (i2d (values_in_range histogram_four values_four))).
Proof.
  assert (H : Histogram_with_range values_four (dbl 1 0) zero (dbl 2 0)
              = Some histogram_four) by (vm_compute; reflexivity).
  split; [exact H|].
  apply (buildHistogram_counts values_four (dbl 1 0) zero (dbl 2 0) histogram_four);
    [vm_compute; reflexivity|exact H].
Defined.

Lemma filter_none {A : Type} (f : A -> bool) (l : list A) :
  Forall (fun x => f x = false) l -> filter f l = [].
Proof.
  induction 1 as [|x l Hx _ IH]; [reflexivity|].
  cbn [filter]. rewrite Hx. exact IH.
Qed.

(** X28.  When none of the values falls in a bin (in particular when there is
    no value at all), [valueNum_] is [0], every probability is the NaN of
    [0.0 / 0.0], and [getProbability] answers [-1.0] or a NaN, never a
    probability. *)
Theorem getProbability_without_values (values : list double) (bw mn mx : double)
        (h : Histogram) (value : double) :
  Z.of_nat (length values) < 2 ^ 31 ->
  Histogram_with_range values bw mn mx = Some h ->
  Forall (fun v => val2bin h v = -1) values ->
  valueNum_ h = 0
  /\ (getProbability h value = d_minus_one
      \/ is_nan (getProbability h value) = true).
Proof.
  intros Hlen H Hout.
  destruct (buildHistogram_spec values bw mn mx h Hlen H)
    as (_ & _ & _ & Hv & Hk).
  assert (Hr : values_in_range h values = 0).
  { unfold values_in_range. rewrite filter_none; [reflexivity|].
    apply Forall_forall. intros v Hin.
    rewrite (proj1 (Forall_forall _ values) Hout v Hin). reflexivity. }
  assert (Hb : forall k, 0 <= k -> values_in_bin h values k = 0).
  { intros k Hk0. unfold values_in_bin. rewrite filter_none; [reflexivity|].
    apply Forall_forall. intros v Hin.
    rewrite (proj1 (Forall_forall _ values) Hout v Hin).
    apply Z.eqb_neq. lia. }
  split; [rewrite Hv; exact Hr|].
  unfold getProbability.
  set (q := if ge value (maxValue_ h) then dsub value (binWidth_ h) else value).
  destruct (val2bin_range h q) as [Hq|Hq].
  - left. rewrite Hq. reflexivity.
  - right.
    replace (0 <=? val2bin h q) with true by (symmetry; apply Z.leb_le; lia).
    rewrite (proj2 (Hk _ Hq)), Hr, Hb by lia.
    vm_compute. reflexivity.
Qed.

Lemma getProbability_without_values_witness :
  valueNum_ histogram_outside = 0
  /\ (getProbability histogram_outside (dbl 1 0) = d_minus_one
      \/ is_nan (getProbability histogram_outside (dbl 1 0)) = true).
Proof.
  apply (getProbability_without_values [dbl 5 0] (dbl 1 0) zero (dbl 2 0)
           histogram_outside (dbl 1 0)).
  - vm_compute. reflexivity.
  - vm_compute. reflexivity.
  - apply Forall_cons; [vm_compute; reflexivity|apply Forall_nil].
Defined.
